(** * APP_Calculo: formula parser and stoichiometry engine

    A shallow embedding of the calculation core of [APP_Calculo.py]
    ([tokenize], [parse_formula], [format_formula], [molar_mass],
    [percent_composition], [empirical_formula_from_pairs],
    [molecular_formula]) and the properties stated about it.

    Conventions of the embedding.
    - A Python [str] is a [string]; each [ascii] stands for the code point
      of the same number, so the alphabet is U+0000..U+00FF.  The middle dot
      of hydrate notation is code point 183.
    - A Python [int] is a [Z], without bound on its size; a Python
      [float] is a binary64 [float].  The conversions between an [int] and
      its decimal text raise beyond [max_str_digits] digits, as CPython does
      from 3.11 on with the limit it starts with.
    - The depth of recursion is not bounded.
    - A Python [dict] is an association list in insertion order with
      distinct keys; [==] on dicts is [dict_equiv].
    - A raised exception is [Raise e]; the constructors of [exc] are the
      raise sites of the program and of the builtins it calls.
    - The table of the [periodictable] package is an argument [pt] of every
      function that consults it: [None] when the import failed. *)

From Stdlib Require Import ZArith NArith List String Ascii Bool Lia.
From Stdlib Require Import Permutation Sorted DecimalString DecimalZ DecimalPos.
From Stdlib Require Import Floats.
Import ListNotations.

#[local] Set Warnings "-inexact-float".

Local Open Scope string_scope.
Local Open Scope Z_scope.

(* ================================================================= *)
(** ** Exceptions *)

(** The messages of [FormulaParseError], one per raise site. *)
Inductive parse_error : Type :=
| UnknownSymbol (symbol : string)        (* get_atomic_weight *)
| UnrecognizedNear (excerpt : string)    (* tokenize *)
| MissingClose                           (* parse_unit, group *)
| NumberWithoutTarget                    (* parse_unit, number *)
| MissingCloseAfterNumber                (* parse_unit, number then group *)
| ExtraClose.                            (* parse_formula *)

Inductive exc : Type :=
| FormulaParseError (msg : parse_error)
| MissingPeriodictable       (* RuntimeError of get_atomic_weight *)
| NotAnIntegerMultiple       (* ValueError of molecular_formula *)
| MinOfEmptySequence         (* ValueError of the builtin min *)
| RoundOfNaN                 (* ValueError of the builtin round *)
| RoundOfInfinity            (* OverflowError of the builtin round *)
| IntTooLargeForFloat        (* OverflowError of int -> float *)
| ZeroDivisionError          (* float division by zero *)
| NumeralTooLong             (* ValueError of int(text), too many digits *)
| IntTooLongForText.         (* ValueError of int -> str, too many digits *)

Inductive res (A : Type) : Type :=
| Ok (a : A)
| Raise (e : exc).
Arguments Ok {A} a.
Arguments Raise {A} e.

Definition bind {A B} (m : res A) (f : A -> res B) : res B :=
  match m with
  | Ok a => f a
  | Raise e => Raise e
  end.

Notation "x <- m ;; k" := (bind m (fun x => k))
  (at level 61, m at next level, right associativity).
Notation "' p <- m ;; k" := (bind m (fun p => k))
  (at level 61, p pattern, m at next level, right associativity).

(** The error kinds of the specification, and the kind each raise site of
    the program stands for.  Exceptions of builtins have no kind. *)
Inductive spec_error : Type :=
| UnrecognizedToken | UnclosedGroup | ExtraClosingParen | DanglingMultiplier
| UnknownElement | DataProviderUnavailable
| ZeroMolarMass | NoPositiveQuantity | NotIntegerMultiple.

Definition spec_kind (e : exc) : option spec_error :=
  match e with
  | FormulaParseError (UnknownSymbol _) => Some UnknownElement
  | FormulaParseError (UnrecognizedNear _) => Some UnrecognizedToken
  | FormulaParseError MissingClose => Some UnclosedGroup
  | FormulaParseError MissingCloseAfterNumber => Some UnclosedGroup
  | FormulaParseError NumberWithoutTarget => Some DanglingMultiplier
  | FormulaParseError ExtraClose => Some ExtraClosingParen
  | MissingPeriodictable => Some DataProviderUnavailable
  | NotAnIntegerMultiple => Some NotIntegerMultiple
  | MinOfEmptySequence | RoundOfNaN | RoundOfInfinity
  | IntTooLargeForFloat | ZeroDivisionError
  | NumeralTooLong | IntTooLongForText => None
  end.

(* ================================================================= *)
(** ** Tokenizer *)

(** Groups of [_token_pat]. *)
Inductive kind : Type := Kdot | Klparen | Krparen | Knumber | Kelem | Kspace.

Definition kind_eqb (a b : kind) : bool :=
  match a, b with
  | Kdot, Kdot | Klparen, Klparen | Krparen, Krparen
  | Knumber, Knumber | Kelem, Kelem | Kspace, Kspace => true
  | _, _ => false
  end.

Definition token : Type := kind * string.

Definition code (c : ascii) : N := N_of_ascii c.
Definition between (lo hi : N) (c : ascii) : bool :=
  ((lo <=? code c) && (code c <=? hi))%N.

Definition middot : ascii := ascii_of_N 183.

(** [[\.\·]] *)
Definition is_dot (c : ascii) : bool := ((code c =? 46) || (code c =? 183))%N.
(** [[\(\[\{]] *)
Definition is_lparen (c : ascii) : bool :=
  ((code c =? 40) || (code c =? 91) || (code c =? 123))%N.
(** [[\)\]\}]] *)
Definition is_rparen (c : ascii) : bool :=
  ((code c =? 41) || (code c =? 93) || (code c =? 125))%N.
(** [\d] *)
Definition is_digit (c : ascii) : bool := between 48 57 c.
(** [[A-Z]] and [[a-z]] *)
Definition is_upper (c : ascii) : bool := between 65 90 c.
Definition is_lower (c : ascii) : bool := between 97 122 c.
(** [\s]: the white space of [str] patterns below U+0100. *)
Definition is_space (c : ascii) : bool :=
  (between 9 13 c || between 28 32 c || (code c =? 133) || (code c =? 160))%N.

(** The longest prefix of characters satisfying [p], and what follows:
    the match of [\d+] or [\s+] once its first character is known. *)
Fixpoint span (p : ascii -> bool) (s : string) : string * string :=
  match s with
  | String c s' =>
      if p c then let '(run, rest) := span p s' in (String c run, rest)
      else ("", s)
  | "" => ("", "")
  end.

(** [_token_pat.match(formula, pos)] on the suffix [formula[pos:]]:
    the group that matched, the matched text and the text after it. *)
Definition match_token (s : string) : option (kind * string * string) :=
  match s with
  | "" => None
  | String c s' =>
      if is_dot c then Some (Kdot, String c "", s')
      else if is_lparen c then Some (Klparen, String c "", s')
      else if is_rparen c then Some (Krparen, String c "", s')
      else if is_digit c then
        let '(run, rest) := span is_digit s' in Some (Knumber, String c run, rest)
      else if is_upper c then
        match s' with
        | String d s'' =>
            if is_lower d then Some (Kelem, String c (String d ""), s'')
            else Some (Kelem, String c "", s')
        | "" => Some (Kelem, String c "", s')
        end
      else if is_space c then
        let '(run, rest) := span is_space s' in Some (Kspace, String c run, rest)
      else None
  end.

(** [formula[pos:pos+5]] *)
Fixpoint take (n : nat) (s : string) : string :=
  match n, s with
  | S n', String c s' => String c (take n' s')
  | _, _ => ""
  end.

(** The loop of [tokenize] on the suffix [formula[pos:]].  Every match
    consumes a character, so [fuel] above the length of the suffix never
    runs out ([tokenize_loop_fuel]). *)
Fixpoint tokenize_loop (fuel : nat) (s : string) : option (res (list token)) :=
  match fuel with
  | O => None
  | S fuel' =>
      match s with
      | "" => Some (Ok [])
      | _ =>
          match match_token s with
          | None => Some (Raise (FormulaParseError (UnrecognizedNear (take 5 s))))
          | Some (k, val, rest) =>
              match tokenize_loop fuel' rest with
              | None => None
              | Some (Raise e) => Some (Raise e)
              | Some (Ok toks) =>
                  Some (Ok (if kind_eqb k Kspace then toks else (k, val) :: toks))
              end
          end
      end
  end.

(** [list(tokenize(formula))]; the fuel is enough, so the second branch
    is never taken ([tokenize_loop_fuel], [tokenize_step]). *)
Definition tokenize (formula : string) : res (list token) :=
  match tokenize_loop (S (String.length formula)) formula with
  | Some r => r
  | None => Ok []
  end.

(* ================================================================= *)
(** ** Dictionaries and atom counts *)

(** A [dict] keyed by strings: its items in insertion order. *)
Definition dict (V : Type) : Type := list (string * V).

(** [d.get(k)] *)
Fixpoint dict_get {V} (d : dict V) (k : string) : option V :=
  match d with
  | [] => None
  | (k', v) :: d' => if (k =? k')%string then Some v else dict_get d' k
  end.

(** [d[k] = v]: a key already present keeps its place. *)
Fixpoint dict_set {V} (d : dict V) (k : string) (v : V) : dict V :=
  match d with
  | [] => [(k, v)]
  | (k', v') :: d' =>
      if (k =? k')%string then (k', v) :: d' else (k', v') :: dict_set d' k v
  end.

(** [d.update(other)] *)
Definition dict_update {V} (d other : dict V) : dict V :=
  fold_left (fun acc '(k, v) => dict_set acc k v) other d.

(** [a == b] on dicts: the same keys with the same values. *)
Definition dict_equiv {V} (a b : dict V) : Prop :=
  forall k, dict_get a k = dict_get b k.

Definition keys {V} (d : dict V) : list string := map fst d.

Definition atom_count : Type := dict Z.

(** [counts.get(el, 0)] *)
Definition count_of (counts : atom_count) (el : string) : Z :=
  match dict_get counts el with
  | Some n => n
  | None => 0
  end.

(** [counts[el] = counts.get(el, 0) + n] *)
Definition add_count (counts : atom_count) (el : string) (n : Z) : atom_count :=
  dict_set counts el (count_of counts el + n).

Definition multiply_counts (counts : atom_count) (k : Z) : atom_count :=
  map (fun '(el, cnt) => (el, cnt * k)) counts.

Definition merge_counts (a b : atom_count) : atom_count :=
  fold_left (fun out '(el, cnt) => add_count out el cnt) b a.

(* ================================================================= *)
(** ** Parser *)

(** [sys.get_int_max_str_digits()]: the most digits that [int(text)] and
    [str(n)] convert, when the limit is the one the interpreter starts
    with. *)
Definition max_str_digits : nat := 4300.

(** The number that a run of digits writes. *)
Definition digit_value (c : ascii) : Z := Z.of_N (code c) - 48.

Definition read_digits (l : list ascii) (acc : Z) : Z :=
  fold_left (fun acc c => 10 * acc + digit_value c) l acc.

Definition int_of_digits (val : string) : Z :=
  read_digits (list_ascii_of_string val) 0.

(** [int(val)] for a run of digits: it raises when the digits, leading
    zeros included, are more than [max_str_digits]. *)
Definition py_int (val : string) : res Z :=
  if (max_str_digits <? String.length val)%nat then Raise NumeralTooLong
  else Ok (int_of_digits val).
Arguments py_int : simpl never.

(** The optional multiplier at the cursor:
    [if i < len(tokens) and tokens[i][0] == "number": mult = int(tokens[i][1]); i += 1]
    with [mult = 1] before it. *)
Definition optional_number (toks : list token) : res (Z * list token) :=
  match toks with
  | (Knumber, val) :: rest => mult <- py_int val ;; Ok (mult, rest)
  | _ => Ok (1, toks)
  end.

(** [parse_unit], the cursor [i] being the list of tokens from [tokens[i]]
    on: it returns the counts of the unit and the cursor it stopped at.
    [counts] is the local dictionary at the head of the [while] loop, so a
    call of the program is [parse_unit_loop fuel [] toks].  One unit of fuel
    is spent per loop iteration and per nested call. *)
Fixpoint parse_unit_loop (fuel : nat) (counts : atom_count) (toks : list token)
  : option (res (atom_count * list token)) :=
  match fuel with
  | O => None
  | S fuel' =>
      match toks with
      | [] => Some (Ok (counts, []))
      | (Krparen, _) :: _ => Some (Ok (counts, toks))
      | (Kdot, _) :: rest =>
          match parse_unit_loop fuel' [] rest with
          | None => None
          | Some (Raise e) => Some (Raise e)
          | Some (Ok (right_, after)) =>
              Some (Ok (dict_update counts (merge_counts counts right_), after))
          end
      | (Kelem, el) :: rest =>
          match optional_number rest with
          | Raise e => Some (Raise e)
          | Ok (mult, after) =>
              parse_unit_loop fuel' (add_count counts el mult) after
          end
      | (Klparen, _) :: rest =>
          match parse_unit_loop fuel' [] rest with
          | None => None
          | Some (Raise e) => Some (Raise e)
          | Some (Ok (inner, (Krparen, _) :: closed)) =>
              match optional_number closed with
              | Raise e => Some (Raise e)
              | Ok (mult, after) =>
                  parse_unit_loop fuel'
                    (merge_counts counts (multiply_counts inner mult)) after
              end
          | Some (Ok (_, _)) => Some (Raise (FormulaParseError MissingClose))
          end
      | (Knumber, val) :: rest =>
          match py_int val with
          | Raise e => Some (Raise e)
          | Ok mult =>
              match rest with
              | (Kelem, el) :: rest1 =>
                  match optional_number rest1 with
                  | Raise e => Some (Raise e)
                  | Ok (cnt, after) =>
                      parse_unit_loop fuel'
                        (add_count counts el (mult * cnt)) after
                  end
              | (Klparen, _) :: rest1 =>
                  match parse_unit_loop fuel' [] rest1 with
                  | None => None
                  | Some (Raise e) => Some (Raise e)
                  | Some (Ok (inner, (Krparen, _) :: closed)) =>
                      match optional_number closed with
                      | Raise e => Some (Raise e)
                      | Ok (cnt, after) =>
                          parse_unit_loop fuel'
                            (merge_counts counts
                               (multiply_counts inner (mult * cnt)))
                            after
                      end
                  | Some (Ok (_, _)) =>
                      Some (Raise (FormulaParseError MissingCloseAfterNumber))
                  end
              | _ => Some (Raise (FormulaParseError NumberWithoutTarget))
              end
          end
      | (Kspace, _) :: rest => parse_unit_loop fuel' counts rest
      end
  end.

(** The body of [parse_formula] after tokenizing.  Fuel above the number
    of tokens is never used up ([parse_unit_loop_total]), so the first
    branch is never taken. *)
Definition parse_tokens (tokens : list token) : res atom_count :=
  match parse_unit_loop (S (List.length tokens)) [] tokens with
  | None => Ok []
  | Some (Raise e) => Raise e
  | Some (Ok (total, (Krparen, _) :: _)) => Raise (FormulaParseError ExtraClose)
  | Some (Ok (total, _)) => Ok total
  end.

Definition parse_formula (formula : string) : res atom_count :=
  tokens <- tokenize formula ;;
  parse_tokens tokens.

(* ================================================================= *)
(** ** Formatter *)

(** The decimal text of an [int]. *)
Definition str_of_int (n : Z) : string := NilZero.string_of_int (Z.to_int n).

(** [str(n)], which is what an f-string writes for an [int]: it raises
    when [n] has more than [max_str_digits] digits, the sign apart. *)
Definition py_str (n : Z) : res string :=
  if (max_str_digits <? String.length (str_of_int (Z.abs n)))%nat
  then Raise IntTooLongForText
  else Ok (str_of_int n).
Arguments py_str : simpl never.

(** [order_key]: carbon, hydrogen, then the rest. *)
Definition order_key (item : string * Z) : Z * string :=
  let '(el, _) := item in
  if (el =? "C")%string then (0, el)
  else if (el =? "H")%string then (1, el)
  else (2, el).

(** [<=] on the tuples returned by [order_key]. *)
Definition key_leb (a b : Z * string) : bool :=
  (fst a <? fst b) || ((fst a =? fst b) && String.leb (snd a) (snd b)).

(** [sorted(items, key=order_key)]: a stable sort. *)
Fixpoint insert_by_key (x : string * Z) (l : list (string * Z)) : list (string * Z) :=
  match l with
  | [] => [x]
  | y :: l' =>
      if key_leb (order_key x) (order_key y) then x :: l
      else y :: insert_by_key x l'
  end.

Definition sorted_by_key (l : list (string * Z)) : list (string * Z) :=
  fold_right insert_by_key [] l.

(** [f"{el}{'' if n==1 else n}"] *)
Definition format_part (item : string * Z) : res string :=
  let '(el, n) := item in
  text <- (if n =? 1 then Ok "" else py_str n) ;;
  Ok (el ++ text).

(** The loop of [format_formula] over the sorted items. *)
Fixpoint format_parts (items : list (string * Z)) : res (list string) :=
  match items with
  | [] => Ok []
  | item :: rest =>
      part <- format_part item ;;
      parts <- format_parts rest ;;
      Ok (part :: parts)
  end.

Definition format_formula (counts : atom_count) : res string :=
  parts <- format_parts (sorted_by_key counts) ;;
  Ok (String.concat "" parts).

(* ================================================================= *)
(** ** Numbers *)

Local Open Scope float_scope.

(** [x / y] on floats: division by zero raises. *)
Definition truediv (x y : float) : res float :=
  if y =? 0 then Raise ZeroDivisionError else Ok (x / y).

(** The conversion of an [int] operand of a float operation: the nearest
    float, ties to even; it raises when that is beyond the largest float. *)
Definition float_of_int (n : Z) : res float :=
  let f := SF2Prim (binary_normalize prec emax n 0 false) in
  if is_infinity f then Raise IntTooLargeForFloat else Ok f.

(** The integer nearest to [m * 2^e], ties to even. *)
Definition round_half_even (m e : Z) : Z :=
  if (0 <=? e)%Z then (m * 2 ^ e)%Z
  else
    let d := (2 ^ (- e))%Z in
    let q := (m / d)%Z in
    match (2 * (m mod d) ?= d)%Z with
    | Lt => q
    | Gt => (q + 1)%Z
    | Eq => if Z.even q then q else (q + 1)%Z
    end.

(** [round(x)], which is already an [int]: [int(round(x))] is the same. *)
Definition py_round (x : float) : res Z :=
  match Prim2SF x with
  | S754_nan => Raise RoundOfNaN
  | S754_infinity _ => Raise RoundOfInfinity
  | S754_zero _ => Ok 0%Z
  | S754_finite s m e =>
      let n := round_half_even (Zpos m) e in
      Ok (if s then (- n)%Z else n)
  end.

(** [min(seq)], by [<] from left to right. *)
Definition py_min (l : list float) : res float :=
  match l with
  | [] => Raise MinOfEmptySequence
  | x :: rest => Ok (fold_left (fun m v => if v <? m then v else m) rest x)
  end.

(** [sum(seq)]: the start value is the int [0], written [0.0] here; they
    are equal, divide alike and [0 + x] is [0.0 + x]. *)
Definition py_sum (l : list float) : float :=
  fold_left (fun acc v => acc + v) l 0.

(* ================================================================= *)
(** ** Element data *)

(** What [getattr(pt, symbol).mass] gives: [None] when anything raises. *)
Definition periodictable : Type := string -> option float.

Definition get_atomic_weight (pt : option periodictable) (symbol : string)
  : res float :=
  match pt with
  | None => Raise MissingPeriodictable
  | Some table =>
      if (symbol =? "D")%string then Ok 2.01410177812
      else
        match table symbol with
        | Some mass => Ok mass
        | None => Raise (FormulaParseError (UnknownSymbol symbol))
        end
  end.

(* ================================================================= *)
(** ** Stoichiometry *)

(** [sum(get_atomic_weight(el) * n for el, n in counts.items())], from the
    running total [acc]. *)
Fixpoint weighted_sum (pt : option periodictable) (items : atom_count)
  (acc : float) : res float :=
  match items with
  | [] => Ok acc
  | (el, n) :: rest =>
      w <- get_atomic_weight pt el ;;
      nf <- float_of_int n ;;
      weighted_sum pt rest (acc + w * nf)
  end.

Definition molar_mass (pt : option periodictable) (formula : string) : res float :=
  counts <- parse_formula formula ;;
  weighted_sum pt counts 0.

(** The dict comprehension of [percent_composition]; the keys of [items]
    are distinct, so the items are appended in order. *)
Fixpoint percent_items (pt : option periodictable) (items : atom_count)
  (total_mm : float) : res (dict float) :=
  match items with
  | [] => Ok []
  | (el, n) :: rest =>
      w <- get_atomic_weight pt el ;;
      nf <- float_of_int n ;;
      pct <- truediv (100.0 * w * nf) total_mm ;;
      comp <- percent_items pt rest total_mm ;;
      Ok ((el, pct) :: comp)
  end.

Definition percent_composition (pt : option periodictable) (formula : string)
  : res (dict float * float) :=
  counts <- parse_formula formula ;;
  total_mm <- molar_mass pt formula ;;
  comp <- percent_items pt counts total_mm ;;
  Ok (comp, total_mm).

(** The first loop of [empirical_formula_from_pairs]. *)
Fixpoint moles_of (pt : option periodictable) (base100 : bool)
  (pairs : list (string * float)) : res (list (string * float)) :=
  match pairs with
  | [] => Ok []
  | (sym, val) :: rest =>
      mm <- get_atomic_weight pt sym ;;
      let grams := if negb base100 then val else val in
      v <- truediv grams mm ;;
      moles <- moles_of pt base100 rest ;;
      Ok ((sym, v) :: moles)
  end.

(** [[(sym, v / minmol) for sym, v in moles]] *)
Fixpoint ratios_of (moles : list (string * float)) (minmol : float)
  : res (list (string * float)) :=
  match moles with
  | [] => Ok []
  | (sym, v) :: rest =>
      r <- truediv v minmol ;;
      ratios <- ratios_of rest minmol ;;
      Ok ((sym, r) :: ratios)
  end.

(** The inner [for] loop for one [k]: [None] when [ok] ends up false,
    the list [rounded] otherwise. *)
Fixpoint probe (k : Z) (tolerance : float) (ratios : list (string * float))
  (rounded : list (string * Z)) : res (option (list (string * Z))) :=
  match ratios with
  | [] => Ok (Some rounded)
  | (sym, r) :: rest =>
      kf <- float_of_int k ;;
      let x := r * kf in
      n <- py_round x ;;
      reject <- (if (n =? 0)%Z then Ok true
                 else nf <- float_of_int n ;; Ok (tolerance <? abs (x - nf))) ;;
      if (reject : bool) then Ok None
      else probe k tolerance rest (rounded ++ [(sym, n)])
  end.

(** [counts[sym] = counts.get(sym, 0) + n] over [rounded]. *)
Definition accumulate (rounded : list (string * Z)) : atom_count :=
  fold_left (fun counts '(sym, n) => add_count counts sym n) rounded [].

(** [{sym: max(1, int(round(r))) for sym, r in ratios}], from [counts]. *)
Fixpoint fallback_counts (ratios : list (string * float)) (counts : atom_count)
  : res atom_count :=
  match ratios with
  | [] => Ok counts
  | (sym, r) :: rest =>
      n <- py_round r ;;
      fallback_counts rest (dict_set counts sym (Z.max 1 n))
  end.

(** The outer [for k in [...]] loop, then the fall-back. *)
Fixpoint probe_all (ks : list Z) (tolerance : float)
  (ratios : list (string * float)) : res string :=
  match ks with
  | [] => counts <- fallback_counts ratios [] ;; format_formula counts
  | k :: ks' =>
      found <- probe k tolerance ratios [] ;;
      match found with
      | Some rounded => format_formula (accumulate rounded)
      | None => probe_all ks' tolerance ratios
      end
  end.

Definition probe_scales : list Z := [1; 2; 3; 4; 5; 6; 8; 10]%Z.

(** [empirical_formula_from_pairs] once [base100] is known. *)
Definition empirical_formula_with (pt : option periodictable) (base100 : bool)
  (pairs : list (string * float)) (tolerance : float) : res string :=
  moles <- moles_of pt base100 pairs ;;
  minmol <- py_min (filter (fun v => 0 <? v) (map snd moles)) ;;
  ratios <- ratios_of moles minmol ;;
  probe_all probe_scales tolerance ratios.

Definition empirical_formula_from_pairs (pt : option periodictable)
  (pairs : list (string * float)) (tolerance : float) : res string :=
  let total := py_sum (map snd pairs) in
  let base100 := (95.0 <=? total) && (total <=? 105.0) in
  empirical_formula_with pt base100 pairs tolerance.

Definition default_tolerance : float := 0.05.

Definition molecular_formula (pt : option periodictable)
  (empirical_formula : string) (target_molar_mass : float) : res string :=
  emp_counts <- parse_formula empirical_formula ;;
  emp_mm <- weighted_sum pt emp_counts 0 ;;
  ratio <- truediv target_molar_mass emp_mm ;;
  k <- py_round ratio ;;
  reject <- (if (k <=? 0)%Z then Ok true
             else kf <- float_of_int k ;; Ok (0.03 <? abs (ratio - kf))) ;;
  if (reject : bool) then Raise NotAnIntegerMultiple
  else format_formula (multiply_counts emp_counts k).

(** Standard atomic weights of the elements the worked examples of the
    program use, as [periodictable] gives them; the other symbols are left
    without a weight here. *)
Definition example_table : periodictable := fun symbol =>
  if (symbol =? "H")%string then Some 1.008
  else if (symbol =? "C")%string then Some 12.011
  else if (symbol =? "N")%string then Some 14.007
  else if (symbol =? "O")%string then Some 15.999
  else if (symbol =? "S")%string then Some 32.06
  else if (symbol =? "Cu")%string then Some 63.546
  else None.

(** The hydrate of the worked examples, [CuSO4·5H2O]. *)
Definition hydrate : string := "CuSO4" ++ String middot "5H2O".

Local Close Scope float_scope.

(* ================================================================= *)
(** ** Vocabulary of the statements *)

(** Text matched by [[A-Z][a-z]?]. *)
Definition is_symbol (el : string) : bool :=
  match el with
  | String c "" => is_upper c
  | String c (String d "") => is_upper c && is_lower d
  | _ => false
  end.

(** Text matched by [\d+]. *)
Definition is_digits (val : string) : bool :=
  match val with
  | "" => false
  | _ => forallb is_digit (list_ascii_of_string val)
  end.

(** What [tokenize] can yield. *)
Definition token_ok (t : token) : Prop :=
  match t with
  | (Kelem, el) => is_symbol el = true
  | (Knumber, val) => is_digits val = true
  | (Kspace, _) => False
  | _ => True
  end.

(** The multiplier a token stands for satisfies [Q]. *)
Definition number_sat (Q : Z -> Prop) (t : token) : Prop :=
  match t with
  | (Knumber, val) => Q (int_of_digits val)
  | _ => True
  end.

Definition values_sat (Q : Z -> Prop) (counts : atom_count) : Prop :=
  Forall (fun item => Q (snd item)) counts.

Definition all_positive (counts : atom_count) : Prop :=
  values_sat (fun n => 0 < n) counts.

(** The invariant of a [dict]: no key twice. *)
Definition distinct_keys {V} (d : dict V) : Prop := NoDup (keys d).

(** An item of an atom count: an element symbol with a count in [Q]. *)
Definition item_ok (Q : Z -> Prop) (item : string * Z) : Prop :=
  is_symbol (fst item) = true /\ Q (snd item).

Definition counts_ok (Q : Z -> Prop) (counts : atom_count) : Prop :=
  distinct_keys counts /\ Forall (item_ok Q) counts.

Definition input_ok (Q : Z -> Prop) (t : token) : Prop :=
  token_ok t /\ number_sat Q t.

(** The tokens of one part of a formatted formula. *)
Definition part_tokens (item : string * Z) : list token :=
  let '(el, n) := item in
  (Kelem, el) :: (if n =? 1 then [] else [(Knumber, str_of_int n)]).

(** The text that [format_formula] writes for an item. *)
Definition part_text (item : string * Z) : string :=
  let '(el, n) := item in el ++ (if n =? 1 then "" else str_of_int n).

(** A run of digits that [int] converts: at most [max_str_digits]
    characters. *)
Definition short (val : string) : bool :=
  (String.length val <=? max_str_digits)%nat.

(** An [int] that [str] converts: at most [max_str_digits] digits. *)
Definition fits (n : Z) : bool :=
  (String.length (str_of_int (Z.abs n)) <=? max_str_digits)%nat.

(** Every count of the dictionary can be written. *)
Definition all_fit (counts : atom_count) : bool :=
  forallb (fun item => fits (snd item)) counts.

(** [c * n] on a one-character [str]. *)
Fixpoint repeat_char (c : ascii) (n : nat) : string :=
  match n with
  | O => ""
  | S n' => String c (repeat_char c n')
  end.

(** Step 2 of the specification of the empirical formula: each
    element's moles figure is [value / weight(symbol)]. *)
Fixpoint spec_moles (pt : option periodictable) (pairs : list (string * float))
  : res (list (string * float)) :=
  match pairs with
  | [] => Ok []
  | (sym, val) :: rest =>
      mm <- get_atomic_weight pt sym ;;
      v <- truediv val mm ;;
      moles <- spec_moles pt rest ;;
      Ok ((sym, v) :: moles)
  end.

(** The cursor is at an element or at an opening bracket. *)
Definition starts_item (toks : list token) : bool :=
  match toks with
  | (Kelem, _) :: _ | (Klparen, _) :: _ => true
  | _ => false
  end.

(** The text is empty or starts with a character satisfying [p]. *)
Definition first_sat (p : ascii -> bool) (s : string) : bool :=
  match s with
  | "" => true
  | String c _ => p c
  end.

(** The sign bit of a float that is not a NaN is [s]. *)
Definition sign_is (s : bool) (x : spec_float) : Prop :=
  match x with
  | S754_nan => True
  | S754_zero s' | S754_infinity s' | S754_finite s' _ _ => s' = s
  end.


(** Every weight of the table is above zero. *)
Definition positive_weights (table : periodictable) : Prop :=
  forall symbol mass, table symbol = Some mass -> (0 <? mass)%float = true.

(** The symbol has a weight: [get_atomic_weight] does not raise. *)
Definition known (table : periodictable) (symbol : string) : Prop :=
  symbol = "D" \/ table symbol <> None.

(** The cursor is at a number. *)
Definition starts_number (toks : list token) : bool :=
  match toks with
  | (Knumber, _) :: _ => true
  | _ => false
  end.

(** The sum of the counts that a list of items gives for [el]. *)
Fixpoint total_of (items : list (string * Z)) (el : string) : Z :=
  match items with
  | [] => 0
  | (k, n) :: rest => (if (el =? k)%string then n else 0) + total_of rest el
  end.

(** Where a unit stops: at the end or at a closing bracket. *)
Definition at_unit_end (toks : list token) : bool :=
  match toks with
  | [] | (Krparen, _) :: _ => true
  | _ => false
  end.

(** A character at which a new token starts whatever precedes it: an
    upper-case letter, a dot or a bracket. *)
Definition is_break (c : ascii) : bool :=
  is_upper c || is_dot c || is_lparen c || is_rparen c.

(** The multiplier written by [val]: 1 when nothing is written. *)
Definition multiplier_of (val : string) : Z :=
  match val with
  | "" => 1
  | _ => int_of_digits val
  end.

(** Nothing, or the text of a number. *)
Definition optional_digits (val : string) : bool :=
  match val with
  | "" => true
  | _ => is_digits val
  end.

(** The depth of bracket nesting after [toks], starting at depth [d];
    [None] when a closing bracket has no opening one before it. *)
Fixpoint scan_brackets (d : nat) (toks : list token) : option nat :=
  match toks with
  | [] => Some d
  | (Klparen, _) :: rest => scan_brackets (S d) rest
  | (Krparen, _) :: rest =>
      match d with
      | O => None
      | S d' => scan_brackets d' rest
      end
  | _ :: rest => scan_brackets d rest
  end.

(** Every bracket has its partner, whatever the kinds of brackets. *)
Definition well_nested (toks : list token) : Prop :=
  scan_brackets 0 toks = Some 0%nat.

(** The errors of the parser proper. *)
Definition parse_failure (e : exc) : Prop :=
  match e with
  | FormulaParseError (UnrecognizedNear _)
  | FormulaParseError MissingClose
  | FormulaParseError NumberWithoutTarget
  | FormulaParseError MissingCloseAfterNumber
  | FormulaParseError ExtraClose => True
  | _ => False
  end.

(** The text without its white space. *)
Fixpoint squeeze (s : string) : string :=
  match s with
  | "" => ""
  | String c s' => if is_space c then squeeze s' else String c (squeeze s')
  end.


(** The order in which [format_formula] writes two items. *)
Definition key_le (a b : string * Z) : Prop :=
  key_leb (order_key a) (order_key b) = true.

(** An item whose symbol has a weight and whose count converts to a
    float. *)
Definition weighable (table : periodictable) (item : string * Z) : Prop :=
  known table (fst item) /\ exists f, float_of_int (snd item) = Ok f.

(** What an accepted probe of scale [k] records for a ratio: the symbol
    with the rounded product, which is not zero and within the tolerance
    of the product. *)
Definition accepted_at (k : Z) (tolerance : float) (ratio : string * float)
  (item : string * Z) : Prop :=
  fst item = fst ratio /\ snd item <> 0 /\
  exists kf nf,
    float_of_int k = Ok kf /\
    py_round (PrimFloat.mul (snd ratio) kf) = Ok (snd item) /\
    float_of_int (snd item) = Ok nf /\
    PrimFloat.ltb tolerance
      (PrimFloat.abs (PrimFloat.sub (PrimFloat.mul (snd ratio) kf) nf)) = false.

(** One way of writing each separator: any opening bracket as [(], any
    closing bracket as [)], either dot as [.]. *)
Definition plain (c : ascii) : ascii :=
  if is_lparen c then "("%char
  else if is_rparen c then ")"%char
  else if is_dot c then "."%char
  else c.

Fixpoint plain_text (s : string) : string :=
  match s with
  | "" => ""
  | String c s' => String (plain c) (plain_text s')
  end.

(** A token without the text the parser does not read. *)
Definition norm_token (t : token) : token :=
  match t with
  | (Kelem, _) | (Knumber, _) => t
  | (k, _) => (k, "")
  end.

(* ================================================================= *)
(** ** Character classes *)

Ltac all_chars c :=
  destruct c as [[] [] [] [] [] [] [] []]; vm_compute; try discriminate; auto.

Lemma digit_class c :
  is_digit c = true ->
  is_dot c = false /\ is_lparen c = false /\ is_rparen c = false /\
  is_upper c = false /\ is_lower c = false.
Proof. all_chars c. Qed.

Lemma upper_class c :
  is_upper c = true ->
  is_dot c = false /\ is_lparen c = false /\ is_rparen c = false /\
  is_digit c = false /\ is_lower c = false.
Proof. all_chars c. Qed.

Lemma digit_value_range c : is_digit c = true -> 0 <= digit_value c <= 9.
Proof.
  destruct c as [[] [] [] [] [] [] [] []]; vm_compute; try discriminate;
    intros _; split; discriminate.
Qed.

(* ================================================================= *)
(** ** The tokenizer terminates *)

Lemma span_length p s run rest :
  span p s = (run, rest) -> (String.length rest <= String.length s)%nat.
Proof.
  revert run rest. induction s as [|c s IH]; simpl; intros run rest H.
  - inversion H; subst; simpl; lia.
  - destruct (p c).
    + destruct (span p s) as [run' rest'] eqn:E. inversion H; subst.
      specialize (IH _ _ eq_refl). lia.
    + inversion H; subst; simpl; lia.
Qed.

Lemma match_token_shorter s k val rest :
  match_token s = Some (k, val, rest) ->
  (String.length rest < String.length s)%nat.
Proof.
  destruct s as [|c s]; simpl; [discriminate|].
  destruct (is_dot c); [intros H; inversion H; subst; lia|].
  destruct (is_lparen c); [intros H; inversion H; subst; lia|].
  destruct (is_rparen c); [intros H; inversion H; subst; lia|].
  destruct (is_digit c).
  { destruct (span is_digit s) as [run r] eqn:E. intros H; inversion H; subst.
    apply span_length in E. lia. }
  destruct (is_upper c).
  { destruct s as [|d s]; [intros H; inversion H; subst; simpl; lia|].
    destruct (is_lower d); intros H; inversion H; subst; simpl; lia. }
  destruct (is_space c); [|discriminate].
  destruct (span is_space s) as [run r] eqn:E. intros H; inversion H; subst.
  apply span_length in E. lia.
Qed.

Lemma tokenize_loop_fuel f1 : forall f2 s,
  (String.length s < f1)%nat -> (String.length s < f2)%nat ->
  tokenize_loop f1 s = tokenize_loop f2 s /\ tokenize_loop f1 s <> None.
Proof.
  induction f1 as [|f1 IH]; intros f2 s H1 H2; [lia|].
  destruct f2 as [|f2]; [lia|]. simpl.
  destruct s as [|c s]; [split; [reflexivity|discriminate]|].
  destruct (match_token (String c s)) as [[[k val] rest]|] eqn:E;
    [|split; [reflexivity|discriminate]].
  apply match_token_shorter in E. simpl in *.
  destruct (IH f2 rest) as [Heq Hsome]; [lia|lia|].
  rewrite <- Heq. split; [reflexivity|].
  destruct (tokenize_loop f1 rest) as [[toks|e]|]; congruence.
Qed.

(** One step of [tokenize], free of fuel. *)
Lemma tokenize_step s :
  tokenize s =
  match s with
  | "" => Ok []
  | _ =>
      match match_token s with
      | None => Raise (FormulaParseError (UnrecognizedNear (take 5 s)))
      | Some (k, val, rest) =>
          toks <- tokenize rest ;;
          Ok (if kind_eqb k Kspace then toks else (k, val) :: toks)
      end
  end.
Proof.
  destruct s as [|c s]; [reflexivity|].
  unfold tokenize at 1.
  change (tokenize_loop (S (String.length (String c s))) (String c s))
    with (match match_token (String c s) with
          | None => Some (Raise (FormulaParseError (UnrecognizedNear (take 5 (String c s)))))
          | Some (k, val, rest) =>
              match tokenize_loop (String.length (String c s)) rest with
              | None => None
              | Some (Raise e) => Some (Raise e)
              | Some (Ok toks) =>
                  Some (Ok (if kind_eqb k Kspace then toks else (k, val) :: toks))
              end
          end).
  destruct (match_token (String c s)) as [[[k val] rest]|] eqn:E; [|reflexivity].
  apply match_token_shorter in E.
  destruct (tokenize_loop_fuel (String.length (String c s)) (S (String.length rest)) rest)
    as [Heq Hsome]; [lia|lia|].
  unfold tokenize. rewrite <- Heq.
  destruct (tokenize_loop (String.length (String c s)) rest) as [[toks|e]|];
    [reflexivity|reflexivity|congruence].
Qed.

(* ================================================================= *)
(** ** The parser terminates *)

Lemma py_int_cases val :
  py_int val = if short val then Ok (int_of_digits val) else Raise NumeralTooLong.
Proof.
  unfold py_int, short. rewrite Nat.ltb_antisym.
  destruct (String.length val <=? max_str_digits)%nat; reflexivity.
Qed.

Lemma py_int_ok val n :
  py_int val = Ok n -> n = int_of_digits val /\ short val = true.
Proof.
  rewrite py_int_cases. destruct (short val); intros H; inversion H; auto.
Qed.

Lemma py_int_short val :
  short val = true -> py_int val = Ok (int_of_digits val).
Proof. intros H. rewrite py_int_cases, H. reflexivity. Qed.

Lemma py_int_long val : short val = false -> py_int val = Raise NumeralTooLong.
Proof. intros H. rewrite py_int_cases, H. reflexivity. Qed.

Lemma py_int_raise val e : py_int val = Raise e -> e = NumeralTooLong.
Proof.
  rewrite py_int_cases. destruct (short val); intros H; inversion H; auto.
Qed.

Lemma optional_number_length toks mult after :
  optional_number toks = Ok (mult, after) ->
  (List.length after <= List.length toks)%nat.
Proof.
  destruct toks as [|[[] val] toks]; simpl; intros H;
    try (inversion H; subst; simpl; lia).
  destruct (py_int val); inversion H; subst. lia.
Qed.

Ltac parse_cases H :=
  repeat match type of H with
         | match ?x with _ => _ end = _ => destruct x eqn:?; try discriminate H
         | (let '(_, _) := ?x in _) = _ => destruct x eqn:?
         end.

(** More fuel changes nothing once there is a result. *)
Lemma parse_unit_loop_more f : forall counts toks r,
  parse_unit_loop f counts toks = Some r ->
  forall f', (f <= f')%nat -> parse_unit_loop f' counts toks = Some r.
Proof.
  induction f as [|f IH]; [discriminate|].
  intros counts toks r H f' Hle. destruct f' as [|f']; [lia|].
  assert (IH' : forall c t r0, parse_unit_loop f c t = Some r0 ->
                               parse_unit_loop f' c t = Some r0).
  { intros c t r0 H0. apply (IH _ _ _ H0). lia. }
  clear IH. simpl in H |- *.
  parse_cases H; subst;
    repeat match goal with
           | E : parse_unit_loop f ?c ?t = Some _ |- _ =>
               rewrite (IH' _ _ _ E); clear E
           | E : optional_number _ = _ |- _ => rewrite E; clear E
           end;
    try reflexivity; try exact H; try (apply IH'; exact H).
Qed.

(** The cursor only advances. *)
Lemma parse_unit_loop_rest f : forall counts toks c rest,
  parse_unit_loop f counts toks = Some (Ok (c, rest)) ->
  (List.length rest <= List.length toks)%nat.
Proof.
  induction f as [|f IH]; [discriminate|].
  intros counts toks c rest H. simpl in H.
  parse_cases H; subst;
    repeat match goal with
           | E : parse_unit_loop f _ _ = Some (Ok _) |- _ => apply IH in E
           | E : optional_number _ = _ |- _ => apply optional_number_length in E
           | E : Some _ = Some _ |- _ => inversion E; subst; clear E
           end;
    simpl in *; try lia.
Qed.

Ltac lengths :=
  repeat match goal with
         | E : optional_number _ = _ |- _ => apply optional_number_length in E
         | E : parse_unit_loop _ _ _ = Some (Ok _) |- _ =>
             apply parse_unit_loop_rest in E
         end;
  unfold token in *; simpl in *; lia.

(** Fuel above the number of tokens left is never used up. *)
Lemma parse_unit_loop_total f : forall counts toks,
  (List.length toks < f)%nat ->
  exists r, parse_unit_loop f counts toks = Some r.
Proof.
  induction f as [|f IH]; intros counts toks Hlen; [lia|].
  destruct toks as [|[k val] toks]; [simpl; eauto|].
  assert (group : forall ts e0 (after_group : atom_count -> Z -> atom_count),
            (List.length ts < f)%nat ->
            exists r,
              match parse_unit_loop f [] ts with
              | None => None
              | Some (Raise e) => Some (Raise e)
              | Some (Ok (inner, (Krparen, _) :: closed)) =>
                  match optional_number closed with
                  | Raise e => Some (Raise e)
                  | Ok (mult, after) =>
                      parse_unit_loop f (after_group inner mult) after
                  end
              | Some (Ok (_, _)) => Some (Raise (FormulaParseError e0))
              end = Some r).
  { intros ts e0 after_group Hts.
    destruct (IH [] ts Hts) as [r0 E]. rewrite E.
    destruct r0 as [[inner rest0]|e]; [|eauto].
    destruct rest0 as [|[[] v] closed]; eauto.
    destruct (optional_number closed) as [[mult after]|e] eqn:E2; [|eauto].
    apply IH. lengths. }
  destruct k; cbn [parse_unit_loop].
  - destruct (IH [] toks) as [r0 E]; [lengths|]. rewrite E.
    destruct r0 as [[? ?]|?]; eauto.
  - apply group with (after_group := fun inner mult =>
      merge_counts counts (multiply_counts inner mult)). lengths.
  - eauto.
  - destruct (py_int val) as [mult|e]; [|eauto].
    destruct toks as [|[[] v] rest1]; eauto.
    + apply group with (after_group := fun inner cnt =>
        merge_counts counts (multiply_counts inner (mult * cnt))).
      lengths.
    + destruct (optional_number rest1) as [[cnt after]|e] eqn:E2; [|eauto].
      apply IH. lengths.
  - destruct (optional_number toks) as [[mult after]|e] eqn:E2; [|eauto].
    apply IH. lengths.
  - apply IH. lengths.
Qed.

(** [parse_tokens] in terms of a run with any sufficient fuel. *)
Lemma parse_tokens_run f tokens r :
  parse_unit_loop f [] tokens = Some r ->
  parse_tokens tokens =
  match r with
  | Raise e => Raise e
  | Ok (total, (Krparen, _) :: _) => Raise (FormulaParseError ExtraClose)
  | Ok (total, _) => Ok total
  end.
Proof.
  intros H. unfold parse_tokens.
  destruct (parse_unit_loop_total (S (List.length tokens)) [] tokens) as [r' E];
    [lia|].
  rewrite E.
  destruct (Nat.le_ge_cases f (S (List.length tokens))) as [Hle|Hle].
  - rewrite (parse_unit_loop_more _ _ _ _ H _ Hle) in E.
    inversion E; subst. reflexivity.
  - rewrite (parse_unit_loop_more _ _ _ _ E _ Hle) in H.
    inversion H; subst. reflexivity.
Qed.

(* ================================================================= *)
(** ** Dictionaries *)

Section Dict.
Context {V : Type}.
Implicit Types (d : dict V) (k : string) (v : V).

Lemma dict_get_set d k v k' :
  dict_get (dict_set d k v) k' =
  if (k' =? k)%string then Some v else dict_get d k'.
Proof.
  induction d as [|[k0 v0] d IH]; simpl.
  - reflexivity.
  - destruct (String.eqb_spec k k0) as [->|Hne]; simpl.
    + destruct (k' =? k0)%string; reflexivity.
    + rewrite IH. destruct (String.eqb_spec k' k0) as [->|Hne'].
      * destruct (String.eqb_spec k0 k); [congruence|reflexivity].
      * reflexivity.
Qed.

Lemma dict_get_In d k v : dict_get d k = Some v -> In (k, v) d.
Proof.
  induction d as [|[k0 v0] d IH]; simpl; [discriminate|].
  destruct (String.eqb_spec k k0) as [->|Hne].
  - intros H; inversion H; auto.
  - auto.
Qed.

Lemma dict_get_None d k : dict_get d k = None <-> ~ In k (keys d).
Proof.
  induction d as [|[k0 v0] d IH]; simpl; [tauto|].
  destruct (String.eqb_spec k k0) as [->|Hne].
  - split; [discriminate|]. intros H; exfalso; auto.
  - rewrite IH. split; [intros H [E|E]; congruence | tauto].
Qed.

Lemma In_dict_get d k v :
  distinct_keys d -> In (k, v) d -> dict_get d k = Some v.
Proof.
  unfold distinct_keys.
  induction d as [|[k0 v0] d IH]; simpl; [tauto|].
  intros Hnd [E|Hin].
  - inversion E; subst. rewrite String.eqb_refl. reflexivity.
  - inversion Hnd; subst.
    destruct (String.eqb_spec k k0) as [->|Hne]; [|auto].
    exfalso. apply H1. change k0 with (fst (k0, v)). apply in_map, Hin.
Qed.

Lemma keys_dict_set d k v :
  keys (dict_set d k v) = if in_dec string_dec k (keys d) then keys d
                          else (keys d ++ [k])%list.
Proof.
  induction d as [|[k0 v0] d IH]; simpl; [reflexivity|].
  destruct (String.eqb_spec k k0) as [E|Hne]; simpl.
  - subst k0. destruct (string_dec k k); [reflexivity|congruence].
  - rewrite IH. destruct (string_dec k0 k) as [E|Hne2]; [congruence|].
    destruct (in_dec string_dec k (keys d)); reflexivity.
Qed.

Lemma dict_set_distinct d k v :
  distinct_keys d -> distinct_keys (dict_set d k v).
Proof.
  unfold distinct_keys. intros H. rewrite keys_dict_set.
  destruct (in_dec string_dec k (keys d)) as [Hin|Hnin]; [exact H|].
  apply NoDup_app; [exact H | repeat constructor; simpl; tauto |].
  intros x Hx [E|[]]. congruence.
Qed.

Lemma dict_set_Forall (P : string * V -> Prop) d k v :
  Forall P d -> P (k, v) -> Forall P (dict_set d k v).
Proof.
  intros Hd Hk. induction Hd as [|[k0 v0] d H0 Hd IH]; simpl.
  - auto.
  - destruct (String.eqb_spec k k0) as [->|Hne]; auto.
Qed.

(** A dict with distinct keys is determined by its set of items. *)
Lemma dict_equiv_Permutation (a b : dict V) :
  distinct_keys a -> Permutation a b -> dict_equiv a b.
Proof.
  intros Ha Hp k.
  assert (Hb : distinct_keys b).
  { unfold distinct_keys, keys in *.
    eapply Permutation_NoDup; [apply Permutation_map, Hp | exact Ha]. }
  destruct (dict_get a k) as [v|] eqn:Ea.
  - symmetry. apply In_dict_get; [exact Hb|].
    eapply Permutation_in; [exact Hp|]. apply dict_get_In, Ea.
  - destruct (dict_get b k) as [v|] eqn:Eb; [|reflexivity].
    apply dict_get_In in Eb. apply Permutation_sym in Hp.
    apply (Permutation_in _ Hp), (In_dict_get _ _ _ Ha) in Eb. congruence.
Qed.
End Dict.

(* ================================================================= *)
(** ** What the tokenizer yields *)

Lemma span_forall p s run rest :
  span p s = (run, rest) -> forallb p (list_ascii_of_string run) = true.
Proof.
  revert run rest. induction s as [|c s IH]; simpl; intros run rest H.
  - inversion H; reflexivity.
  - destruct (p c) eqn:Ec.
    + destruct (span p s) as [run' rest'] eqn:E. inversion H; subst. simpl.
      rewrite Ec. apply (IH _ _ eq_refl).
    + inversion H; reflexivity.
Qed.

Lemma match_token_ok s k val rest :
  match_token s = Some (k, val, rest) -> k = Kspace \/ token_ok (k, val).
Proof.
  destruct s as [|c s]; simpl; [discriminate|].
  destruct (is_dot c); [intros H; inversion H; subst; right; exact I|].
  destruct (is_lparen c); [intros H; inversion H; subst; right; exact I|].
  destruct (is_rparen c); [intros H; inversion H; subst; right; exact I|].
  destruct (is_digit c) eqn:Ed.
  { destruct (span is_digit s) as [run r] eqn:E. intros H; inversion H; subst.
    right. simpl. rewrite Ed. apply (span_forall _ _ _ _ E). }
  destruct (is_upper c) eqn:Eu.
  { destruct s as [|d s]; [intros H; inversion H; subst; right; exact Eu|].
    destruct (is_lower d) eqn:El; intros H; inversion H; subst; right; simpl.
    - rewrite Eu, El. reflexivity.
    - exact Eu. }
  destruct (is_space c); [|discriminate].
  destruct (span is_space s) as [run r] eqn:E. intros H; inversion H; subst.
  left; reflexivity.
Qed.

Lemma tokenize_ok_len n : forall s tokens,
  (String.length s <= n)%nat ->
  tokenize s = Ok tokens -> Forall token_ok tokens.
Proof.
  induction n as [|n IH]; intros s tokens Hn H; rewrite tokenize_step in H;
    destruct s as [|c s]; try (inversion H; constructor); simpl in Hn; try lia.
  destruct (match_token (String c s)) as [[[k val] rest]|] eqn:E; [|discriminate].
  pose proof (match_token_shorter _ _ _ _ E) as Hlen.
  apply match_token_ok in E.
  destruct (tokenize rest) as [toks|e] eqn:Er; [|discriminate].
  apply IH in Er; [|simpl in Hlen; lia].
  simpl in H. inversion H; subst.
  destruct E as [->|Hok]; [exact Er|].
  destruct k; simpl; try (constructor; assumption). destruct Hok.
Qed.

Lemma tokenize_ok s tokens : tokenize s = Ok tokens -> Forall token_ok tokens.
Proof. apply (tokenize_ok_len (String.length s)). lia. Qed.

Lemma read_digits_nonneg l : forall acc,
  0 <= acc -> forallb is_digit l = true -> 0 <= read_digits l acc.
Proof.
  unfold read_digits.
  induction l as [|c l IH]; cbn [fold_left forallb]; intros acc Hacc Hall;
    [exact Hacc|].
  apply andb_prop in Hall. destruct Hall as [Hc Hl].
  apply IH; [|exact Hl]. pose proof (digit_value_range c Hc). lia.
Qed.

Lemma int_of_digits_nonneg val : is_digits val = true -> 0 <= int_of_digits val.
Proof.
  intros H. unfold int_of_digits. apply read_digits_nonneg; [lia|].
  destruct val; [discriminate|exact H].
Qed.

(* ================================================================= *)
(** ** Invariants of the parser *)

Section Invariant.
(** [Q] holds of every multiplier and is closed under the arithmetic of
    the parser. *)
Variable Q : Z -> Prop.
Hypothesis Q_one : Q 1.
Hypothesis Q_add : forall a b, Q a -> Q b -> Q (a + b).
Hypothesis Q_mul : forall a b, Q a -> Q b -> Q (a * b).

Lemma counts_ok_nil : counts_ok Q [].
Proof. split; constructor. Qed.

Lemma add_count_ok counts el n :
  counts_ok Q counts -> is_symbol el = true -> Q n ->
  counts_ok Q (add_count counts el n).
Proof.
  intros [Hd Hall] Hel Hn. split; [apply dict_set_distinct, Hd|].
  apply dict_set_Forall; [exact Hall|]. split; [exact Hel|]. simpl.
  unfold count_of. destruct (dict_get counts el) as [v|] eqn:E.
  - apply dict_get_In in E. rewrite Forall_forall in Hall.
    apply Q_add; [apply (Hall _ E) | exact Hn].
  - exact Hn.
Qed.

Lemma merge_counts_ok a b :
  counts_ok Q a -> Forall (item_ok Q) b -> counts_ok Q (merge_counts a b).
Proof.
  unfold merge_counts. intros Ha Hb. revert a Ha.
  induction Hb as [|[el cnt] b [Hel Hcnt] Hb IH]; simpl; intros a Ha.
  - exact Ha.
  - apply IH, add_count_ok; assumption.
Qed.

Lemma multiply_counts_ok counts k :
  counts_ok Q counts -> Q k -> counts_ok Q (multiply_counts counts k).
Proof.
  intros [Hd Hall] Hk. split.
  - unfold distinct_keys, keys, multiply_counts in *. rewrite map_map.
    erewrite map_ext; [exact Hd|]. intros [el cnt]; reflexivity.
  - unfold multiply_counts. apply Forall_map.
    eapply Forall_impl; [|exact Hall].
    intros [el cnt] [Hel Hcnt]. split; [exact Hel|]. apply Q_mul; assumption.
Qed.

Lemma dict_update_ok counts other :
  counts_ok Q counts -> Forall (item_ok Q) other ->
  counts_ok Q (dict_update counts other).
Proof.
  unfold dict_update. intros Hc Ho. revert counts Hc.
  induction Ho as [|[el cnt] other Hitem Ho IH]; simpl; intros counts Hc.
  - exact Hc.
  - apply IH. destruct Hc as [Hd Hall].
    split; [apply dict_set_distinct, Hd | apply dict_set_Forall; assumption].
Qed.

Lemma optional_number_ok toks mult after :
  Forall (input_ok Q) toks -> optional_number toks = Ok (mult, after) ->
  Q mult /\ Forall (input_ok Q) after.
Proof.
  intros Ht H. destruct toks as [|[k val] toks].
  - inversion H; subst. auto.
  - inversion Ht as [|? ? [Hok Hnum] Ht']; subst.
    destruct k; simpl in H; try (inversion H; subst; auto; fail).
    destruct (py_int val) as [n|e] eqn:E; inversion H; subst.
    apply py_int_ok in E. destruct E as [-> _]. auto.
Qed.

(** Whatever a unit returns has distinct element symbols as keys and
    values satisfying [Q]. *)
Lemma parse_unit_loop_ok f : forall counts toks c rest,
  Forall (input_ok Q) toks -> counts_ok Q counts ->
  parse_unit_loop f counts toks = Some (Ok (c, rest)) ->
  counts_ok Q c /\ Forall (input_ok Q) rest.
Proof.
  induction f as [|f IH]; [discriminate|].
  intros counts toks c rest Ht Hc H. simpl in H.
  destruct toks as [|[k val] toks]; [inversion H; subst; auto|].
  inversion Ht as [|? ? [Hok Hnum] Ht']; subst.
  destruct k.
  - (* dot *)
    destruct (parse_unit_loop f [] toks) as [[[right_ after]|e]|] eqn:E;
      try discriminate.
    inversion H; subst.
    destruct (IH _ _ _ _ Ht' counts_ok_nil E) as [Hr Hafter].
    split; [|exact Hafter].
    apply dict_update_ok; [exact Hc|].
    apply (merge_counts_ok _ _ Hc), Hr.
  - (* lparen *)
    destruct (parse_unit_loop f [] toks) as [[[inner after]|e]|] eqn:E;
      try discriminate.
    destruct (IH _ _ _ _ Ht' counts_ok_nil E) as [Hinner Hafter].
    destruct after as [|[[] v] closed]; try discriminate.
    destruct (optional_number closed) as [[mult after]|e] eqn:E2;
      [|discriminate].
    inversion Hafter; subst.
    destruct (optional_number_ok _ _ _ H3 E2) as [Hmult Hafter'].
    apply (IH _ _ _ _ Hafter') in H; [exact H|].
    apply merge_counts_ok; [exact Hc|]. apply multiply_counts_ok; assumption.
  - (* rparen *)
    inversion H; subst. auto.
  - (* number *)
    simpl in Hnum.
    destruct (py_int val) as [num|e] eqn:Ev; [|discriminate].
    apply py_int_ok in Ev. destruct Ev as [-> _].
    destruct toks as [|[[] v] rest1]; try discriminate.
    + destruct (parse_unit_loop f [] rest1) as [[[inner after]|e]|] eqn:E;
        try discriminate.
      inversion Ht'; subst.
      destruct (IH _ _ _ _ H3 counts_ok_nil E) as [Hinner Hafter].
      destruct after as [|[[] v'] closed]; try discriminate.
      destruct (optional_number closed) as [[cnt after]|e] eqn:E2;
        [|discriminate].
      inversion Hafter; subst.
      destruct (optional_number_ok _ _ _ H5 E2) as [Hcnt Hafter'].
      apply (IH _ _ _ _ Hafter') in H; [exact H|].
      apply merge_counts_ok; [exact Hc|].
      apply multiply_counts_ok; [assumption|]. apply Q_mul; assumption.
    + destruct (optional_number rest1) as [[cnt after]|e] eqn:E2;
        [|discriminate].
      inversion Ht' as [|? ? [Hel _] Hrest1]; subst.
      destruct (optional_number_ok _ _ _ Hrest1 E2) as [Hcnt Hafter'].
      apply (IH _ _ _ _ Hafter') in H; [exact H|].
      apply add_count_ok; [exact Hc | exact Hel | apply Q_mul; assumption].
  - (* elem *)
    destruct (optional_number toks) as [[mult after]|e] eqn:E2;
      [|discriminate].
    destruct (optional_number_ok _ _ _ Ht' E2) as [Hmult Hafter'].
    apply (IH _ _ _ _ Hafter') in H; [exact H|].
    apply add_count_ok; assumption.
  - (* space *)
    destruct Hok.
Qed.

Lemma parse_tokens_ok tokens counts :
  Forall (input_ok Q) tokens -> parse_tokens tokens = Ok counts ->
  counts_ok Q counts.
Proof.
  intros Ht H.
  destruct (parse_unit_loop_total (S (List.length tokens)) [] tokens)
    as [r E]; [lia|].
  rewrite (parse_tokens_run _ _ _ E) in H.
  destruct r as [[total rest]|e]; [|discriminate].
  destruct (parse_unit_loop_ok _ _ _ _ _ Ht counts_ok_nil E) as [Hc _].
  destruct rest as [|[[] v] rest]; inversion H; subst; exact Hc.
Qed.
End Invariant.

(* ================================================================= *)
(** ** Properties of the parser *)

(** C1 (the program differs): on [CuSO4·5H2O] the parser returns
    Cu 1, S 1, O 5, H 10.  The coefficient 5 after the dot multiplies the
    element that follows it, H2, and not the oxygen of the water: the unit
    after the dot counts H 10, O 1, and oxygen totals 4 + 1 = 5, not 9. *)
Theorem hydrate_coefficient_reaches_one_element :
  parse_formula hydrate = Ok [("Cu", 1); ("S", 1); ("O", 5); ("H", 10)] /\
  parse_formula "5H2O" = Ok [("H", 10); ("O", 1)] /\
  parse_formula "5(H2O)" = Ok [("H", 10); ("O", 5)].
Proof. repeat split; reflexivity. Qed.

Lemma tokens_nonneg tokens :
  Forall token_ok tokens -> Forall (input_ok (fun n => 0 <= n)) tokens.
Proof.
  intros H. eapply Forall_impl; [|exact H].
  intros [k val] Hok. split; [exact Hok|].
  destruct k; simpl; auto. apply int_of_digits_nonneg, Hok.
Qed.

(** Element symbols as distinct keys, counts at least zero. *)
Lemma parse_formula_counts_ok s counts :
  parse_formula s = Ok counts -> counts_ok (fun n => 0 <= n) counts.
Proof.
  unfold parse_formula. destruct (tokenize s) as [tokens|e] eqn:E; [|discriminate].
  simpl. apply parse_tokens_ok; try lia.
  apply tokens_nonneg, (tokenize_ok _ _ E).
Qed.

(** C3 (counterexample): a zero multiplier leaves a key with count 0:
    ["H0"] parses to H 0, so not every accepted formula has positive
    counts only. *)
Lemma zero_multiplier_kept :
  parse_formula "H0" = Ok [("H", 0)] /\
  parse_formula "(H2O)0" = Ok [("H", 0); ("O", 0)] /\
  ~ (forall s counts, parse_formula s = Ok counts -> all_positive counts).
Proof.
  split; [reflexivity|]. split; [reflexivity|].
  intros H. specialize (H "H0" [("H", 0)] eq_refl).
  inversion H; subst. simpl in *. lia.
Qed.

(** C3 (amended): every count of an accepted formula is at least zero,
    and all counts are above zero when no number of the formula is zero. *)
Theorem parse_formula_counts s tokens counts :
  tokenize s = Ok tokens ->
  parse_formula s = Ok counts ->
  values_sat (fun n => 0 <= n) counts /\
  (Forall (number_sat (fun n => n <> 0)) tokens -> all_positive counts).
Proof.
  intros Htok H. split.
  - apply parse_formula_counts_ok in H. destruct H as [_ H].
    unfold values_sat. eapply Forall_impl; [|exact H]. intros item [_ Hq]; exact Hq.
  - intros Hnz. unfold parse_formula in H. rewrite Htok in H. simpl in H.
    apply (parse_tokens_ok (fun n => 0 < n)) in H; try lia.
    + destruct H as [_ H]. unfold all_positive, values_sat.
      eapply Forall_impl; [|exact H]. intros item [_ Hq]; exact Hq.
    + apply tokenize_ok, tokens_nonneg in Htok.
      rewrite Forall_forall in *. intros [k val] Hin.
      destruct (Htok _ Hin) as [Hok Hge]. specialize (Hnz _ Hin).
      split; [exact Hok|]. destruct k; simpl in *; auto. lia.
Qed.

Lemma parse_formula_counts_witness :
  values_sat (fun n => 0 <= n) [("Ca", 3); ("P", 2); ("O", 8)] /\
  (Forall (number_sat (fun n => n <> 0))
     [(Kelem, "Ca"); (Knumber, "3"); (Klparen, "("); (Kelem, "P");
      (Kelem, "O"); (Knumber, "4"); (Krparen, ")"); (Knumber, "2")] ->
   all_positive [("Ca", 3); ("P", 2); ("O", 8)]).
Proof.
  exact (parse_formula_counts "Ca3(PO4)2" _ _ eq_refl eq_refl).
Defined.

Lemma span_all p s :
  forallb p (list_ascii_of_string s) = true -> span p s = (s, "").
Proof.
  induction s as [|c s IH]; simpl; [reflexivity|].
  intros H. apply andb_prop in H. destruct H as [Hc Hs].
  rewrite Hc, (IH Hs). reflexivity.
Qed.

Lemma tokenize_number val :
  is_digits val = true -> tokenize val = Ok [(Knumber, val)].
Proof.
  intros H. rewrite tokenize_step. destruct val as [|c val]; [discriminate|].
  simpl in H. apply andb_prop in H. destruct H as [Hc Hval].
  unfold match_token.
  destruct (digit_class c Hc) as (-> & -> & -> & _).
  rewrite Hc, (span_all _ _ Hval). rewrite tokenize_step. reflexivity.
Qed.

(** C5 (counterexample): a number of more than [max_str_digits] digits
    stops the parser in [int], before it looks at what follows the number:
    alone or before an element, 4301 digits fail with the [ValueError] of
    the conversion, which is none of the error kinds of the specification
    and not the error of a dangling multiplier. *)
Lemma leading_number_too_long :
  parse_formula (repeat_char "1" 4301) = Raise NumeralTooLong /\
  parse_formula (repeat_char "1" 4301 ++ "H") = Raise NumeralTooLong /\
  spec_kind NumeralTooLong = None /\
  ~ (forall val,
       is_digits val = true ->
       parse_formula val = Raise (FormulaParseError NumberWithoutTarget)).
Proof.
  assert (H : parse_formula (repeat_char "1" 4301) = Raise NumeralTooLong)
    by (vm_compute; reflexivity).
  split; [exact H|]. split; [vm_compute; reflexivity|].
  split; [reflexivity|].
  intros Hall. rewrite Hall in H; [discriminate H|].
  vm_compute; reflexivity.
Qed.

(** C5 (amended): at a number of at most [max_str_digits] digits that is
    not the multiplier of what precedes it, the loop of [parse_unit] raises
    the error of a dangling multiplier unless an element or an opening
    bracket follows, wherever in the formula the number stands; at the
    start of the formula this is the result of the whole parse, and a
    formula that is only such a number, like ["3"], fails so.  An element
    that follows counts the number times its own multiplier; a group that
    follows is scaled by the number times the multiplier after its closing
    bracket.  A number of more digits raises the error of [int], whatever
    follows it. *)
Theorem leading_number :
  (forall fuel counts val rest,
     short val = true -> starts_item rest = false ->
     parse_unit_loop (S fuel) counts ((Knumber, val) :: rest)
     = Some (Raise (FormulaParseError NumberWithoutTarget))) /\
  (forall val rest,
     short val = true -> starts_item rest = false ->
     parse_tokens ((Knumber, val) :: rest)
     = Raise (FormulaParseError NumberWithoutTarget)) /\
  (forall val,
     is_digits val = true -> short val = true ->
     parse_formula val = Raise (FormulaParseError NumberWithoutTarget)) /\
  spec_kind (FormulaParseError NumberWithoutTarget) = Some DanglingMultiplier /\
  (forall fuel counts val el rest cnt after,
     short val = true ->
     optional_number rest = Ok (cnt, after) ->
     parse_unit_loop (S fuel) counts ((Knumber, val) :: (Kelem, el) :: rest)
     = parse_unit_loop fuel
         (add_count counts el (int_of_digits val * cnt)) after) /\
  (forall fuel counts val open rest inner close closed cnt after,
     short val = true ->
     parse_unit_loop fuel [] rest = Some (Ok (inner, (Krparen, close) :: closed)) ->
     optional_number closed = Ok (cnt, after) ->
     parse_unit_loop (S fuel) counts ((Knumber, val) :: (Klparen, open) :: rest)
     = parse_unit_loop fuel
         (merge_counts counts (multiply_counts inner (int_of_digits val * cnt)))
         after) /\
  (forall fuel counts val rest,
     short val = false ->
     parse_unit_loop (S fuel) counts ((Knumber, val) :: rest)
     = Some (Raise NumeralTooLong)) /\
  parse_formula "3" = Raise (FormulaParseError NumberWithoutTarget) /\
  parse_formula "2(NH4)3" = Ok [("N", 6); ("H", 24)].
Proof.
  assert (first : forall fuel counts val rest,
            short val = true -> starts_item rest = false ->
            parse_unit_loop (S fuel) counts ((Knumber, val) :: rest)
            = Some (Raise (FormulaParseError NumberWithoutTarget))).
  { intros fuel counts val rest Hs H. cbn [parse_unit_loop].
    rewrite (py_int_short _ Hs).
    destruct rest as [|[[] v] rest]; try discriminate; reflexivity. }
  split; [exact first|]. split.
  { intros val rest Hs H.
    rewrite (parse_tokens_run _ _ _ (first 0%nat [] val rest Hs H)).
    reflexivity. }
  split.
  { intros val H Hs. unfold parse_formula. rewrite (tokenize_number _ H).
    cbn [bind].
    exact (parse_tokens_run _ _ _ (first 0%nat [] val [] Hs eq_refl)). }
  split; [reflexivity|]. split.
  { intros fuel counts val el rest cnt after Hs H. cbn [parse_unit_loop].
    rewrite (py_int_short _ Hs), H. reflexivity. }
  split.
  { intros fuel counts val open rest inner close closed cnt after Hs H1 H2.
    cbn [parse_unit_loop]. rewrite (py_int_short _ Hs), H1, H2. reflexivity. }
  split.
  { intros fuel counts val rest Hs. cbn [parse_unit_loop].
    rewrite (py_int_long _ Hs). reflexivity. }
  split; reflexivity.
Qed.

Lemma leading_number_witness :
  parse_tokens [(Knumber, "3"); (Kdot, "."); (Kelem, "H")]
  = Raise (FormulaParseError NumberWithoutTarget) /\
  parse_formula "42" = Raise (FormulaParseError NumberWithoutTarget) /\
  parse_unit_loop 3 [] [(Knumber, "3"); (Kelem, "Na"); (Knumber, "2")]
  = parse_unit_loop 2 (add_count [] "Na" (int_of_digits "3" * 2)) [] /\
  parse_unit_loop 5 []
    [(Knumber, "2"); (Klparen, "("); (Kelem, "N"); (Krparen, ")"); (Knumber, "3")]
  = parse_unit_loop 4
      (merge_counts [] (multiply_counts [("N", 1)] (int_of_digits "2" * 3))) [].
Proof.
  destruct leading_number as (_ & A & B & _ & C & D & _).
  split; [apply A; reflexivity|].
  split; [apply B; reflexivity|].
  split; [apply C; reflexivity|].
  eapply D; reflexivity.
Defined.

(* ================================================================= *)
(** ** Printing and reading integers *)

Lemma uint_digits d :
  forallb is_digit (list_ascii_of_string (NilEmpty.string_of_uint d)) = true.
Proof. induction d; simpl; try rewrite IHd; reflexivity. Qed.

Lemma read_uint_acc d : forall p,
  read_digits (list_ascii_of_string (NilEmpty.string_of_uint d)) (Zpos p)
  = Zpos (Pos.of_uint_acc d p).
Proof.
  unfold read_digits.
  induction d; intros p; cbn [NilEmpty.string_of_uint list_ascii_of_string
                              fold_left Pos.of_uint_acc];
    try reflexivity;
    match goal with
    | |- fold_left _ _ ?a = Zpos (Pos.of_uint_acc _ ?q) =>
        replace a with (Zpos q) by (vm_compute digit_value; lia)
    end; apply IHd.
Qed.

Lemma read_uint d :
  read_digits (list_ascii_of_string (NilEmpty.string_of_uint d)) 0
  = Z.of_N (Pos.of_uint d).
Proof.
  induction d; cbn [NilEmpty.string_of_uint list_ascii_of_string Pos.of_uint];
    try reflexivity;
    unfold read_digits; cbn [fold_left];
    try (exact IHd);
    match goal with
    | |- fold_left _ _ ?a = Z.of_N (N.pos (Pos.of_uint_acc _ ?q)) =>
        change a with (Zpos q)
    end; apply read_uint_acc.
Qed.

Lemma str_of_int_pos p :
  str_of_int (Zpos p) = NilEmpty.string_of_uint (Pos.to_uint p).
Proof.
  unfold str_of_int. simpl. unfold NilZero.string_of_uint.
  pose proof (Unsigned.to_uint_nonnil p) as H.
  destruct (Pos.to_uint p); [congruence|reflexivity..].
Qed.

Lemma str_of_int_digits n : 0 <= n -> is_digits (str_of_int n) = true.
Proof.
  intros Hn. destruct n as [|p|p]; [reflexivity| |lia].
  rewrite str_of_int_pos. unfold is_digits.
  pose proof (uint_digits (Pos.to_uint p)) as H.
  pose proof (Unsigned.to_uint_nonnil p) as Hnil.
  destruct (Pos.to_uint p); [congruence|exact H..].
Qed.

(** [int(str(n)) == n] *)
Lemma int_of_str n : 0 <= n -> int_of_digits (str_of_int n) = n.
Proof.
  intros Hn. destruct n as [|p|p]; [reflexivity| |lia].
  rewrite str_of_int_pos. unfold int_of_digits.
  rewrite read_uint, Unsigned.of_to. reflexivity.
Qed.

(* ================================================================= *)
(** ** Reading back a formatted formula *)

Lemma append_nil_r s : s ++ "" = s.
Proof. induction s as [|c s IH]; simpl; [|rewrite IH]; reflexivity. Qed.

Lemma append_assoc (a b c : string) : (a ++ b) ++ c = a ++ (b ++ c).
Proof. induction a as [|x a IH]; simpl; [|rewrite IH]; reflexivity. Qed.

Lemma span_app p run s :
  forallb p (list_ascii_of_string run) = true ->
  first_sat (fun c => negb (p c)) s = true ->
  span p (run ++ s) = (run, s).
Proof.
  intros Hrun Hs. induction run as [|c run IH]; simpl in *.
  - destruct s as [|d s]; [reflexivity|]. simpl in Hs |- *.
    destruct (p d); [discriminate|reflexivity].
  - apply andb_prop in Hrun. destruct Hrun as [Hc Hrun].
    rewrite Hc, (IH Hrun). reflexivity.
Qed.

Lemma tokenize_symbol el s :
  is_symbol el = true -> first_sat (fun c => negb (is_lower c)) s = true ->
  tokenize (el ++ s) = toks <- tokenize s ;; Ok ((Kelem, el) :: toks).
Proof.
  intros Hel Hs. destruct el as [|c [|d [|x el]]]; simpl in Hel;
    try discriminate.
  - rewrite tokenize_step. cbn [append match_token].
    destruct (upper_class c Hel) as (-> & -> & -> & -> & _). rewrite Hel.
    destruct s as [|d s]; [reflexivity|]. simpl in Hs.
    destruct (is_lower d); [discriminate|reflexivity].
  - apply andb_prop in Hel. destruct Hel as [Hc Hd].
    rewrite tokenize_step. cbn [append match_token].
    destruct (upper_class c Hc) as (-> & -> & -> & -> & _). rewrite Hc, Hd.
    reflexivity.
Qed.

Lemma tokenize_digits val s :
  is_digits val = true -> first_sat (fun c => negb (is_digit c)) s = true ->
  tokenize (val ++ s) = toks <- tokenize s ;; Ok ((Knumber, val) :: toks).
Proof.
  intros Hval Hs. destruct val as [|c val]; [discriminate|].
  simpl in Hval. apply andb_prop in Hval. destruct Hval as [Hc Hval].
  rewrite tokenize_step. cbn [append match_token].
  destruct (digit_class c Hc) as (-> & -> & -> & _).
  rewrite Hc, (span_app _ _ _ Hval Hs). reflexivity.
Qed.

Lemma upper_first s :
  first_sat is_upper s = true ->
  first_sat (fun c => negb (is_lower c)) s = true /\
  first_sat (fun c => negb (is_digit c)) s = true.
Proof.
  destruct s as [|c s]; simpl; [auto|]. intros H.
  destruct (upper_class c H) as (_ & _ & _ & -> & ->). auto.
Qed.

Lemma tokenize_part item s :
  item_ok (fun n => 0 <= n) item -> first_sat is_upper s = true ->
  tokenize (part_text item ++ s)
  = toks <- tokenize s ;; Ok (part_tokens item ++ toks)%list.
Proof.
  destruct item as [el n]. intros [Hel Hn] Hs. simpl in Hel, Hn.
  destruct (upper_first s Hs) as [Hlow Hdig].
  unfold part_text, part_tokens. rewrite append_assoc.
  destruct (n =? 1).
  - simpl. apply tokenize_symbol; assumption.
  - pose proof (str_of_int_digits n Hn) as Hd.
    rewrite tokenize_symbol; [|exact Hel|].
    + rewrite (tokenize_digits _ _ Hd Hdig).
      destruct (tokenize s); reflexivity.
    + destruct (str_of_int n) as [|c val]; [discriminate|]. simpl in *.
      apply andb_prop in Hd. destruct Hd as [Hc _].
      destruct (digit_class c Hc) as (_ & _ & _ & _ & ->). reflexivity.
Qed.

Lemma concat_cons x xs : String.concat "" (x :: xs) = x ++ String.concat "" xs.
Proof. destruct xs; simpl; [rewrite append_nil_r|]; reflexivity. Qed.

Lemma parts_first l :
  Forall (item_ok (fun n => 0 <= n)) l ->
  first_sat is_upper (String.concat "" (map part_text l)) = true.
Proof.
  intros H. destruct H as [|[el n] l [Hel _] _]; [reflexivity|].
  cbn [map]. rewrite concat_cons. unfold part_text. rewrite append_assoc.
  simpl in Hel. destruct el as [|c [|d [|x el]]]; simpl in *; try discriminate.
  - exact Hel.
  - apply andb_prop in Hel. tauto.
Qed.

Lemma tokenize_parts l :
  Forall (item_ok (fun n => 0 <= n)) l ->
  tokenize (String.concat "" (map part_text l)) = Ok (flat_map part_tokens l).
Proof.
  induction 1 as [|item l Hitem Hl IH]; [reflexivity|].
  cbn [map flat_map]. rewrite concat_cons.
  rewrite (tokenize_part _ _ Hitem (parts_first _ Hl)), IH. reflexivity.
Qed.

Lemma optional_number_part l :
  optional_number (flat_map part_tokens l) = Ok (1, flat_map part_tokens l).
Proof. destruct l as [|[el n] l]; reflexivity. Qed.

Lemma fits_short n : 0 <= n -> short (str_of_int n) = fits n.
Proof. intros Hn. unfold fits, short. rewrite Z.abs_eq by exact Hn. reflexivity. Qed.

(** Parsing the tokens of formatted parts adds the parts one by one. *)
Lemma parse_parts l : forall fuel counts,
  Forall (item_ok (fun n => 0 <= n)) l -> all_fit l = true ->
  (List.length (flat_map part_tokens l) < fuel)%nat ->
  parse_unit_loop fuel counts (flat_map part_tokens l)
  = Some (Ok (merge_counts counts l, [])).
Proof.
  induction l as [|[el n] l IH]; intros fuel counts Hl Hfit Hfuel;
    (destruct fuel as [|fuel]; [lia|]); [reflexivity|].
  inversion Hl as [|? ? [_ Hn] Hl']; subst. simpl in Hn.
  unfold all_fit in Hfit. cbn [forallb snd] in Hfit.
  apply andb_prop in Hfit. destruct Hfit as [Hfn Hfl].
  cbn [flat_map part_tokens] in *.
  destruct (Z.eqb_spec n 1) as [->|Hne].
  - cbn [app parse_unit_loop] in *. rewrite optional_number_part.
    apply IH; [exact Hl' | exact Hfl |]. simpl in Hfuel. lia.
  - cbn [app parse_unit_loop optional_number] in *.
    rewrite py_int_short by (rewrite (fits_short n Hn); exact Hfn).
    cbn [bind]. rewrite (int_of_str n Hn).
    apply IH; [exact Hl' | exact Hfl |]. simpl in Hfuel. lia.
Qed.

(** What the formatter writes, and when it raises. *)
Lemma py_str_cases n :
  py_str n = if fits n then Ok (str_of_int n) else Raise IntTooLongForText.
Proof.
  unfold py_str, fits. rewrite Nat.ltb_antisym.
  destruct (String.length (str_of_int (Z.abs n)) <=? max_str_digits)%nat;
    reflexivity.
Qed.

Lemma format_part_cases item :
  format_part item
  = if fits (snd item) then Ok (part_text item) else Raise IntTooLongForText.
Proof.
  destruct item as [el n]. unfold format_part, part_text. cbn [snd].
  destruct (Z.eqb_spec n 1) as [->|Hne].
  - reflexivity.
  - rewrite py_str_cases. destruct (fits n); reflexivity.
Qed.

Lemma format_parts_cases l :
  format_parts l
  = if all_fit l then Ok (map part_text l) else Raise IntTooLongForText.
Proof.
  unfold all_fit. induction l as [|item l IH]; [reflexivity|].
  cbn [format_parts forallb map]. rewrite format_part_cases, IH.
  destruct (fits (snd item)); [|reflexivity].
  destruct (forallb (fun item0 => fits (snd item0)) l); reflexivity.
Qed.

Lemma all_fit_Permutation a b : Permutation a b -> all_fit a = all_fit b.
Proof.
  unfold all_fit.
  induction 1 as [|x a b _ IH|x y a|a b c _ IH1 _ IH2]; cbn [forallb].
  - reflexivity.
  - rewrite IH. reflexivity.
  - destruct (fits (snd x)), (fits (snd y)); reflexivity.
  - rewrite IH1. exact IH2.
Qed.

Lemma dict_set_new {V} (d : dict V) k v :
  ~ In k (keys d) -> dict_set d k v = (d ++ [(k, v)])%list.
Proof.
  induction d as [|[k0 v0] d IH]; simpl; intros H; [reflexivity|].
  destruct (String.eqb_spec k k0) as [E|Hne]; [exfalso; auto|].
  rewrite IH; tauto.
Qed.

(** Adding items under fresh, distinct keys appends them. *)
Lemma merge_counts_fresh l : forall counts,
  NoDup (keys counts ++ keys l) -> merge_counts counts l = (counts ++ l)%list.
Proof.
  unfold merge_counts.
  induction l as [|[el n] l IH]; intros counts H; simpl.
  - rewrite app_nil_r. reflexivity.
  - assert (Hnew : ~ In el (keys counts)).
    { intros Hin. apply NoDup_remove_2 in H. apply H, in_or_app. auto. }
    unfold add_count, count_of.
    rewrite (proj2 (dict_get_None counts el) Hnew), (dict_set_new _ _ _ Hnew).
    rewrite IH.
    + rewrite <- app_assoc. reflexivity.
    + unfold keys in *. rewrite map_app, <- app_assoc. exact H.
Qed.

Lemma insert_by_key_Permutation x l : Permutation (x :: l) (insert_by_key x l).
Proof.
  induction l as [|y l IH]; simpl; [reflexivity|].
  destruct (key_leb (order_key x) (order_key y)); [reflexivity|].
  rewrite perm_swap. apply perm_skip, IH.
Qed.

Lemma sorted_by_key_Permutation l : Permutation l (sorted_by_key l).
Proof.
  induction l as [|x l IH]; simpl; [reflexivity|].
  rewrite <- insert_by_key_Permutation. apply perm_skip, IH.
Qed.

Lemma format_formula_cases counts :
  format_formula counts
  = if all_fit counts
    then Ok (String.concat "" (map part_text (sorted_by_key counts)))
    else Raise IntTooLongForText.
Proof.
  unfold format_formula. rewrite format_parts_cases.
  rewrite <- (all_fit_Permutation _ _ (sorted_by_key_Permutation counts)).
  destruct (all_fit counts); reflexivity.
Qed.

(** A formatted dictionary of element symbols with counts at least zero
    is read back as its items in the order of the formatter. *)
Lemma parse_format counts text :
  counts_ok (fun n => 0 <= n) counts ->
  format_formula counts = Ok text ->
  parse_formula text = Ok (sorted_by_key counts).
Proof.
  intros [Hd Hall] Htext. rewrite format_formula_cases in Htext.
  destruct (all_fit counts) eqn:Hfit; [|discriminate].
  inversion Htext; subst text. clear Htext.
  pose proof (sorted_by_key_Permutation counts) as Hp.
  rewrite (all_fit_Permutation _ _ Hp) in Hfit.
  assert (Hall' : Forall (item_ok (fun n => 0 <= n)) (sorted_by_key counts)).
  { rewrite Forall_forall in *. intros x Hx. apply Hall.
    eapply Permutation_in; [symmetry; exact Hp | exact Hx]. }
  assert (Hd' : distinct_keys (sorted_by_key counts)).
  { unfold distinct_keys, keys in *.
    eapply Permutation_NoDup; [apply Permutation_map, Hp | exact Hd]. }
  unfold parse_formula. rewrite (tokenize_parts _ Hall').
  cbn [bind].
  rewrite (parse_tokens_run _ _ _
             (parse_parts _ (S (List.length (flat_map part_tokens
                                              (sorted_by_key counts))))
                [] Hall' Hfit (Nat.lt_succ_diag_r _))).
  rewrite (merge_counts_fresh _ [] Hd'). reflexivity.
Qed.

(** C4 (counterexample): ["H"], 4300 nines and ["H"] are accepted, with
    10^4300 atoms of hydrogen; that count has 4301 digits, so
    [format_formula] raises the [ValueError] of the conversion to text and
    there is nothing to parse again. *)
Lemma reparse_formatted_too_long :
  parse_formula ("H" ++ repeat_char "9" 4300 ++ "H") = Ok [("H", 10 ^ 4300)] /\
  format_formula [("H", 10 ^ 4300)] = Raise IntTooLongForText /\
  spec_kind IntTooLongForText = None /\
  ~ (forall s counts,
       parse_formula s = Ok counts ->
       exists text,
         format_formula counts = Ok text /\
         parse_formula text = Ok (sorted_by_key counts)).
Proof.
  assert (Hparse : parse_formula ("H" ++ repeat_char "9" 4300 ++ "H")
                   = Ok [("H", 10 ^ 4300)]) by (vm_compute; reflexivity).
  assert (Hformat : format_formula [("H", 10 ^ 4300)] = Raise IntTooLongForText)
    by (vm_compute; reflexivity).
  split; [exact Hparse|]. split; [exact Hformat|]. split; [reflexivity|].
  intros Hall. destruct (Hall _ _ Hparse) as (text & Htext & _).
  rewrite Hformat in Htext. discriminate Htext.
Qed.

(** C4 (amended): for every text that [parse_formula] accepts, the sorted
    items of the result are the same dictionary as the result.  When every
    count has at most [max_str_digits] digits, [format_formula] returns a
    text, and parsing that text succeeds and gives those sorted items: the
    same dictionary as the first parse.  When some count has more digits,
    [format_formula] raises the error of the conversion to text. *)
Theorem reparse_formatted s counts :
  parse_formula s = Ok counts ->
  dict_equiv (sorted_by_key counts) counts /\
  (all_fit counts = true ->
   exists text,
     format_formula counts = Ok text /\
     parse_formula text = Ok (sorted_by_key counts)) /\
  (all_fit counts = false ->
   format_formula counts = Raise IntTooLongForText).
Proof.
  intros H. apply parse_formula_counts_ok in H.
  pose proof (sorted_by_key_Permutation counts) as Hp.
  split; [|split].
  - apply dict_equiv_Permutation; [|symmetry; exact Hp].
    destruct H as [Hd _]. unfold distinct_keys, keys in *.
    eapply Permutation_NoDup; [apply Permutation_map, Hp | exact Hd].
  - intros Hfit.
    assert (Htext : format_formula counts
                    = Ok (String.concat "" (map part_text (sorted_by_key counts))))
      by (rewrite format_formula_cases, Hfit; reflexivity).
    eexists. split; [exact Htext|]. exact (parse_format _ _ H Htext).
  - intros Hfit. rewrite format_formula_cases, Hfit. reflexivity.
Qed.

Lemma reparse_formatted_witness :
  exists text,
    format_formula [("O", 1); ("H", 4); ("C", 1)] = Ok text /\
    parse_formula text = Ok (sorted_by_key [("O", 1); ("H", 4); ("C", 1)]).
Proof.
  destruct (reparse_formatted "OH4C" _ eq_refl) as (_ & H & _).
  apply H. reflexivity.
Defined.

(* ================================================================= *)
(** ** Properties of the stoichiometry engine *)

Local Open Scope float_scope.

(** No raise site of the program stands for a zero molar mass or for the
    absence of a positive quantity. *)
Lemma no_guard_kind e :
  spec_kind e <> Some ZeroMolarMass /\ spec_kind e <> Some NoPositiveQuantity.
Proof. destruct e as [[]| | | | | | | | |]; split; discriminate. Qed.

(** C9: when the empirical formula parses to an empty atom count, as the
    empty text does, the empirical mass is 0 and [molecular_formula]
    raises the division by zero of the division itself, whatever the
    target and the table; that exception is none of the error kinds of
    the specification. *)
Theorem molecular_formula_of_nothing pt text (target : float) :
  parse_formula text = Ok [] ->
  weighted_sum pt [] 0 = Ok 0 /\
  molecular_formula pt text target = Raise ZeroDivisionError /\
  spec_kind ZeroDivisionError = None.
Proof.
  intros H. split; [reflexivity|]. split; [|reflexivity].
  unfold molecular_formula. rewrite H. reflexivity.
Qed.

Lemma molecular_formula_of_nothing_witness :
  weighted_sum None [] 0 = Ok 0 /\
  molecular_formula None "" 180.16 = Raise ZeroDivisionError /\
  spec_kind ZeroDivisionError = None.
Proof. exact (molecular_formula_of_nothing None "" 180.16 eq_refl). Defined.

(** C2 (counterexample): for the empty formula the total molar mass is 0
    and [percent_composition] returns the empty mapping with that total;
    nothing is raised. *)
Lemma percent_of_empty_formula :
  parse_formula "" = Ok [] /\
  molar_mass (Some example_table) "" = Ok 0 /\
  percent_composition (Some example_table) "" = Ok ([], 0).
Proof. repeat split; reflexivity. Qed.

Lemma weighted_sum_head pt el n rest acc total :
  weighted_sum pt ((el, n) :: rest) acc = Ok total ->
  exists w nf, get_atomic_weight pt el = Ok w /\ float_of_int n = Ok nf.
Proof.
  simpl. destruct (get_atomic_weight pt el) as [w|e]; [|discriminate].
  destruct (float_of_int n) as [nf|e]; [|discriminate]. eauto.
Qed.

(** C2 (amended): there is no guard for a zero molar mass.  When the total
    molar mass is zero, [percent_composition] returns the empty mapping and
    the total if the formula has no element, and raises the division by
    zero of its first division otherwise. *)
Theorem percent_composition_zero_mass pt formula counts total :
  parse_formula formula = Ok counts ->
  molar_mass pt formula = Ok total ->
  (total =? 0) = true ->
  percent_composition pt formula
  = match counts with
    | [] => Ok ([], total)
    | _ :: _ => Raise ZeroDivisionError
    end /\
  forall e, spec_kind e <> Some ZeroMolarMass.
Proof.
  intros Hparse Hmass Hzero. split; [|intros e; apply no_guard_kind].
  unfold percent_composition. rewrite Hparse, Hmass. cbn [bind].
  unfold molar_mass in Hmass. rewrite Hparse in Hmass. cbn [bind] in Hmass.
  destruct counts as [|[el n] rest]; [reflexivity|].
  destruct (weighted_sum_head _ _ _ _ _ _ Hmass) as (w & nf & Hw & Hnf).
  cbn [percent_items]. rewrite Hw, Hnf. cbn [bind].
  unfold truediv. rewrite Hzero. reflexivity.
Qed.

Lemma percent_composition_zero_mass_witness :
  percent_composition (Some example_table) "H0" = Raise ZeroDivisionError /\
  forall e, spec_kind e <> Some ZeroMolarMass.
Proof.
  exact (percent_composition_zero_mass (Some example_table) "H0" _ 0
           eq_refl eq_refl eq_refl).
Defined.

(** C6: [molecular_formula] divides the target by the empirical molar
    mass and rounds the ratio to [k]; it raises its own error exactly when
    [k <= 0] or [|ratio - k| > 0.03], and returns what [format_formula]
    gives for the counts times [k] otherwise.  With the weights of C, H and O, the empirical
    formula CH2O and the target 180.16 give C6H12O6. *)
Theorem molecular_formula_rule :
  (forall pt text target counts emp_mm ratio k kf,
     parse_formula text = Ok counts ->
     weighted_sum pt counts 0 = Ok emp_mm ->
     truediv target emp_mm = Ok ratio ->
     py_round ratio = Ok k ->
     ((0 < k)%Z -> float_of_int k = Ok kf) ->
     ratio = target / emp_mm /\
     molecular_formula pt text target
     = (if (k <=? 0)%Z || (0.03 <? abs (ratio - kf))
        then Raise NotAnIntegerMultiple
        else format_formula (multiply_counts counts k)) /\
     spec_kind NotAnIntegerMultiple = Some NotIntegerMultiple) /\
  (forall table,
     table "C"%string = Some 12.011 ->
     table "H"%string = Some 1.008 ->
     table "O"%string = Some 15.999 ->
     molecular_formula (Some table) "CH2O" 180.16 = Ok "C6H12O6"%string).
Proof.
  split.
  - intros pt text target counts emp_mm ratio k kf Hparse Hmm Hratio Hk Hkf.
    split; [|split; [|reflexivity]].
    + unfold truediv in Hratio. destruct (emp_mm =? 0); inversion Hratio.
      reflexivity.
    + unfold molecular_formula. rewrite Hparse. cbn [bind].
      rewrite Hmm. cbn [bind]. rewrite Hratio. cbn [bind].
      rewrite Hk. cbn [bind].
      destruct (Z.leb_spec k 0) as [Hle|Hgt]; [reflexivity|].
      rewrite (Hkf Hgt). cbn [bind orb].
      destruct (0.03 <? abs (ratio - kf)); reflexivity.
  - intros table HC HH HO. unfold molecular_formula.
    change (parse_formula "CH2O")
      with (Ok [("C"%string, 1%Z); ("H"%string, 2%Z); ("O"%string, 1%Z)]).
    cbn [bind weighted_sum get_atomic_weight]. cbn [String.eqb Ascii.eqb Bool.eqb].
    rewrite HC, HH, HO. reflexivity.
Qed.

Lemma molecular_formula_rule_witness :
  molecular_formula (Some example_table) "CH2O" 180.16 = Ok "C6H12O6"%string /\
  molecular_formula (Some example_table) "CH2O" 180.16
  = format_formula
      (multiply_counts [("C"%string, 1%Z); ("H"%string, 2%Z); ("O"%string, 1%Z)] 6).
Proof.
  destruct molecular_formula_rule as [A B]. split.
  - apply B; reflexivity.
  - destruct (A (Some example_table) "CH2O"%string 180.16
                [("C"%string, 1%Z); ("H"%string, 2%Z); ("O"%string, 1%Z)]
                (0 + 12.011 * 1 + 1.008 * 2 + 15.999 * 1)
                (180.16 / (0 + 12.011 * 1 + 1.008 * 2 + 15.999 * 1))
                6%Z 6 eq_refl eq_refl eq_refl eq_refl (fun _ => eq_refl))
      as (_ & H & _).
    exact H.
Defined.

Lemma moles_of_spec pt base100 pairs :
  moles_of pt base100 pairs = spec_moles pt pairs.
Proof.
  induction pairs as [|[sym val] pairs IH]; simpl; [reflexivity|].
  rewrite IH. destruct base100; reflexivity.
Qed.


(* ================================================================= *)
(** ** Signs and zeros of floats *)

Lemma binary_round_aux_sign s mz ez lz :
  sign_is s (binary_round_aux prec emax s mz ez lz).
Proof.
  unfold binary_round_aux.
  destruct (shr_fexp prec emax mz ez lz) as [mrs' e'].
  destruct (shr_fexp prec emax _ e' loc_Exact) as [mrs'' e''].
  destruct (shr_m mrs''); [reflexivity| |exact I].
  destruct (e'' <=? emax - prec)%Z; reflexivity.
Qed.

Lemma SFdiv_sign sx mx ex sy my ey :
  sign_is (xorb sx sy)
    (SF64div (S754_finite sx mx ex) (S754_finite sy my ey)).
Proof.
  unfold SF64div, SFdiv.
  destruct (SFdiv_core_binary prec emax (Z.pos mx) ex (Z.pos my) ey)
    as [[mz ez] lz].
  apply binary_round_aux_sign.
Qed.

(** What is at most zero, divided by what is above zero, is not above
    zero. *)
Lemma div_not_positive v w :
  (v <=? 0) = true -> (0 <? w) = true -> (0 <? v / w) = false.
Proof.
  rewrite leb_spec, !ltb_spec, div_spec.
  change (Prim2SF 0) with (S754_zero false).
  generalize (Prim2SF v) (Prim2SF w). intros x y Hx Hy.
  destruct x as [sx|sx| |sx mx ex], y as [sy|sy| |sy my ey];
    try discriminate Hx; try discriminate Hy;
    try (destruct sx, sy; try discriminate Hx; try discriminate Hy; reflexivity).
  destruct sx, sy; try discriminate Hx; try discriminate Hy.
  pose proof (SFdiv_sign true mx ex false my ey) as Hs.
  destruct (SF64div _ _) as [s|s| |s m e]; simpl in Hs; subst; reflexivity.
Qed.

Lemma positive_not_zero w : (0 <? w) = true -> (w =? 0) = false.
Proof.
  rewrite ltb_spec, eqb_spec. change (Prim2SF 0) with (S754_zero false).
  destruct (Prim2SF w) as [s|s| |s m e]; try discriminate;
    destruct s; try discriminate; reflexivity.
Qed.





(* ================================================================= *)
(** ** The empirical formula *)

Lemma example_table_positive : positive_weights example_table.
Proof.
  intros symbol mass. unfold example_table.
  repeat match goal with
         | |- context [if ?b then _ else _] => destruct b
         end;
    intros H; inversion H; reflexivity.
Qed.

Lemma weight_of_known table symbol :
  positive_weights table -> known table symbol ->
  exists w, get_atomic_weight (Some table) symbol = Ok w /\ (0 <? w) = true.
Proof.
  intros Hpos Hknown. unfold get_atomic_weight.
  destruct (String.eqb_spec symbol "D") as [E|Hne].
  - eexists; split; reflexivity.
  - destruct Hknown as [E|Hsome]; [contradiction|].
    destruct (table symbol) as [mass|] eqn:E; [|contradiction].
    exists mass; split; [reflexivity | exact (Hpos _ _ E)].
Qed.


Lemma truediv_positive v w : (0 <? w) = true -> truediv v w = Ok (v / w).
Proof. intros H. unfold truediv. rewrite (positive_not_zero _ H). reflexivity. Qed.

Lemma moles_not_positive table pairs :
  positive_weights table ->
  Forall (fun pair => known table (fst pair) /\ (snd pair <=? 0) = true) pairs ->
  exists moles, spec_moles (Some table) pairs = Ok moles /\
                filter (fun v => 0 <? v) (map snd moles) = [].
Proof.
  intros Hpos H. induction H as [|[sym val] pairs [Hk Hval] _ [moles [IH1 IH2]]].
  - exists []; split; reflexivity.
  - simpl in Hk, Hval. destruct (weight_of_known _ _ Hpos Hk) as [w [Hw Hw0]].
    exists ((sym, val / w) :: moles). cbn [spec_moles].
    rewrite Hw. cbn [bind]. rewrite (truediv_positive _ _ Hw0), IH1.
    split; [reflexivity|]. cbn [map filter snd].
    rewrite (div_not_positive _ _ Hval Hw0). exact IH2.
Qed.

(** C7 (counterexample): with no positive value the error is the one the
    builtin [min] raises on an empty sequence; the program has no guard
    and no error of its own for this case. *)
Lemma no_positive_quantity_unguarded :
  empirical_formula_from_pairs (Some example_table)
    [("C"%string, 0); ("H"%string, 0)] default_tolerance
  = Raise MinOfEmptySequence /\
  ~ (exists e,
       empirical_formula_from_pairs (Some example_table)
         [("C"%string, 0); ("H"%string, 0)] default_tolerance = Raise e /\
       spec_kind e = Some NoPositiveQuantity).
Proof.
  split; [reflexivity|]. intros [e [_ H]].
  exact (proj2 (no_guard_kind e) H).
Qed.

(** C7 (amended): when every value is zero or negative and every symbol
    has a weight, the weights being above zero,
    [empirical_formula_from_pairs] fails with the error of the builtin
    [min] on an empty sequence: not a division by zero, and not an error
    of the program's own; no raise site stands for a missing positive
    quantity. *)
Theorem no_positive_quantity table pairs tolerance :
  positive_weights table ->
  Forall (fun pair => known table (fst pair) /\ (snd pair <=? 0) = true) pairs ->
  empirical_formula_from_pairs (Some table) pairs tolerance
  = Raise MinOfEmptySequence /\
  spec_kind MinOfEmptySequence = None /\
  forall e, spec_kind e <> Some NoPositiveQuantity.
Proof.
  intros Hpos H. split; [|split; [reflexivity | intros e; apply no_guard_kind]].
  destruct (moles_not_positive _ _ Hpos H) as [moles [Hm Hf]].
  unfold empirical_formula_from_pairs, empirical_formula_with.
  rewrite moles_of_spec, Hm. cbn [bind]. rewrite Hf. reflexivity.
Qed.

Lemma no_positive_quantity_witness :
  empirical_formula_from_pairs (Some example_table)
    [("C"%string, 0); ("O"%string, -2.5)] default_tolerance
  = Raise MinOfEmptySequence /\
  spec_kind MinOfEmptySequence = None /\
  forall e, spec_kind e <> Some NoPositiveQuantity.
Proof.
  apply (no_positive_quantity example_table).
  - exact example_table_positive.
  - repeat (apply Forall_cons;
            [split; [right; vm_compute; discriminate | reflexivity]|]).
    apply Forall_nil.
Defined.


Lemma spec_moles_keys pt pairs : forall moles,
  spec_moles pt pairs = Ok moles -> map fst moles = map fst pairs.
Proof.
  induction pairs as [|[sym val] pairs IH]; cbn [spec_moles]; intros moles H.
  - inversion H; reflexivity.
  - destruct (get_atomic_weight pt sym) as [w|e]; [|discriminate].
    cbn [bind] in H. destruct (truediv val w) as [v|e]; [|discriminate].
    cbn [bind] in H. destruct (spec_moles pt pairs) as [m|e]; [|discriminate].
    inversion H; subst. simpl. rewrite (IH _ eq_refl). reflexivity.
Qed.


Lemma ratios_of_keys moles minmol : forall ratios,
  ratios_of moles minmol = Ok ratios -> map fst ratios = map fst moles.
Proof.
  induction moles as [|[sym v] moles IH]; cbn [ratios_of]; intros ratios H.
  - inversion H; reflexivity.
  - destruct (truediv v minmol) as [r|e]; [|discriminate].
    cbn [bind] in H. destruct (ratios_of moles minmol) as [rs|e]; [|discriminate].
    inversion H; subst. simpl. rewrite (IH _ eq_refl). reflexivity.
Qed.






(** The first scale that is accepted decides the result. *)
Lemma probe_all_first tolerance ratios k rounded later : forall earlier,
  (forall j, In j earlier -> probe j tolerance ratios [] = Ok None) ->
  probe k tolerance ratios [] = Ok (Some rounded) ->
  probe_all (earlier ++ k :: later) tolerance ratios
  = format_formula (accumulate rounded).
Proof.
  induction earlier as [|j earlier IH]; intros Hnone Hk; cbn [app probe_all].
  - rewrite Hk. reflexivity.
  - rewrite (Hnone j (or_introl eq_refl)). cbn [bind].
    apply IH; [|exact Hk]. intros j' Hj'. apply Hnone. right; exact Hj'.
Qed.







Local Close Scope float_scope.

(* ================================================================= *)
(** ** Counts under [merge_counts] and [multiply_counts] *)

Lemma count_of_add_count counts el n x :
  count_of (add_count counts el n) x
  = if (x =? el)%string then count_of counts el + n else count_of counts x.
Proof.
  unfold add_count, count_of at 1. rewrite dict_get_set.
  destruct (x =? el)%string; reflexivity.
Qed.

Lemma add_count_distinct counts el n :
  distinct_keys counts -> distinct_keys (add_count counts el n).
Proof. apply dict_set_distinct. Qed.

Lemma merge_counts_distinct b : forall a,
  distinct_keys a -> distinct_keys (merge_counts a b).
Proof.
  unfold merge_counts. induction b as [|[el n] b IH]; intros a Ha; simpl.
  - exact Ha.
  - apply IH, add_count_distinct, Ha.
Qed.

Lemma multiply_counts_keys counts k : keys (multiply_counts counts k) = keys counts.
Proof.
  unfold keys, multiply_counts. rewrite map_map. apply map_ext.
  intros [el n]; reflexivity.
Qed.

Lemma multiply_counts_distinct counts k :
  distinct_keys counts -> distinct_keys (multiply_counts counts k).
Proof. unfold distinct_keys. rewrite multiply_counts_keys. auto. Qed.

Lemma dict_update_distinct {V} (other : dict V) : forall d,
  distinct_keys d -> distinct_keys (dict_update d other).
Proof.
  unfold dict_update. induction other as [|[k v] other IH]; intros d Hd; simpl.
  - exact Hd.
  - apply IH, dict_set_distinct, Hd.
Qed.

Lemma total_of_absent items el : ~ In el (keys items) -> total_of items el = 0.
Proof.
  induction items as [|[k n] items IH]; simpl; intros H; [reflexivity|].
  destruct (String.eqb_spec el k) as [E|Hne]; [exfalso; auto|].
  rewrite IH; tauto.
Qed.

Lemma total_of_distinct items el :
  distinct_keys items -> total_of items el = count_of items el.
Proof.
  unfold distinct_keys, count_of.
  induction items as [|[k n] items IH]; simpl; intros H; [reflexivity|].
  inversion H; subst.
  destruct (String.eqb_spec el k) as [E|Hne].
  - subst. rewrite total_of_absent by assumption. lia.
  - rewrite IH by assumption. reflexivity.
Qed.

Lemma count_of_merge_total b : forall a x,
  count_of (merge_counts a b) x = count_of a x + total_of b x.
Proof.
  unfold merge_counts. induction b as [|[el n] b IH]; intros a x; simpl.
  - lia.
  - rewrite IH, count_of_add_count.
    destruct (String.eqb_spec x el) as [E|Hne]; [subst|]; lia.
Qed.

Lemma count_of_merge a b x :
  distinct_keys b ->
  count_of (merge_counts a b) x = count_of a x + count_of b x.
Proof.
  intros Hb. rewrite count_of_merge_total, total_of_distinct by exact Hb.
  reflexivity.
Qed.

Lemma dict_get_multiply counts k x :
  dict_get (multiply_counts counts k) x
  = option_map (fun n => n * k) (dict_get counts x).
Proof.
  induction counts as [|[el n] counts IH]; simpl; [reflexivity|].
  destruct (x =? el)%string; [reflexivity | exact IH].
Qed.

Lemma count_of_multiply counts k x :
  count_of (multiply_counts counts k) x = count_of counts x * k.
Proof.
  unfold count_of. rewrite dict_get_multiply.
  destruct (dict_get counts x); simpl; lia.
Qed.

Lemma keys_merge b : forall a x,
  In x (keys (merge_counts a b)) <-> In x (keys a) \/ In x (keys b).
Proof.
  unfold merge_counts. induction b as [|[el n] b IH]; intros a x; simpl.
  - tauto.
  - rewrite IH. unfold add_count. rewrite keys_dict_set.
    destruct (in_dec string_dec el (keys a)) as [Hin|Hnin].
    + split; [tauto|]. intros [H|[H|H]]; subst; auto.
    + rewrite in_app_iff. simpl. tauto.
Qed.

Lemma count_of_absent (counts : atom_count) x :
  ~ In x (keys counts) -> count_of counts x = 0.
Proof.
  intros H. unfold count_of. rewrite (proj2 (dict_get_None counts x) H).
  reflexivity.
Qed.

(** With the keys of [d] among those of [m], [d.update(m)] has the
    values of [m]. *)
Lemma dict_get_update_rev {V} (m : dict V) : forall d x,
  dict_get (dict_update d m) x
  = match dict_get (rev m) x with
    | Some v => Some v
    | None => dict_get d x
    end.
Proof.
  unfold dict_update. induction m as [|[k v] m IH]; intros d x; simpl.
  - reflexivity.
  - rewrite IH. clear IH.
    assert (Happ : forall (a b : dict V),
              dict_get (a ++ b)%list x
              = match dict_get a x with
                | Some w => Some w
                | None => dict_get b x
                end).
    { induction a as [|[k0 v0] a IHa]; intros b; simpl; [reflexivity|].
      destruct (x =? k0)%string; [reflexivity | apply IHa]. }
    rewrite Happ. destruct (dict_get (rev m) x) as [w|]; [reflexivity|].
    simpl. rewrite dict_get_set. destruct (x =? k)%string; reflexivity.
Qed.

Lemma count_of_update_merge counts right_ x :
  distinct_keys counts -> distinct_keys right_ ->
  count_of (dict_update counts (merge_counts counts right_)) x
  = count_of counts x + count_of right_ x.
Proof.
  intros Hc Hr. rewrite <- count_of_merge by exact Hr.
  pose proof (merge_counts_distinct right_ counts Hc) as Hm.
  unfold count_of at 1. rewrite dict_get_update_rev.
  rewrite <- (dict_equiv_Permutation _ _ Hm (Permutation_rev _) x).
  unfold count_of.
  destruct (dict_get (merge_counts counts right_) x) as [v|] eqn:E;
    [reflexivity|].
  apply dict_get_None in E.
  rewrite (proj2 (dict_get_None counts x)); [reflexivity|].
  intros Hin. apply E, keys_merge. left; exact Hin.
Qed.

(** X1: [merge_counts] adds the counts of two dictionaries element by
    element, keeps the keys distinct, has exactly the keys of both, and
    commutes with [multiply_counts]. *)
Theorem merge_counts_adds a b k el :
  distinct_keys a -> distinct_keys b ->
  count_of (merge_counts a b) el = count_of a el + count_of b el /\
  distinct_keys (merge_counts a b) /\
  (In el (keys (merge_counts a b)) <-> In el (keys a) \/ In el (keys b)) /\
  count_of (multiply_counts (merge_counts a b) k) el
  = count_of (merge_counts (multiply_counts a k) (multiply_counts b k)) el.
Proof.
  intros Ha Hb. split; [apply count_of_merge, Hb|].
  split; [apply merge_counts_distinct, Ha|].
  split; [apply keys_merge|].
  rewrite count_of_multiply, !count_of_merge, !count_of_multiply;
    [lia | apply multiply_counts_distinct, Hb | exact Hb].
Qed.

Lemma merge_counts_adds_witness :
  count_of (merge_counts [("H", 2); ("O", 1)] [("O", 3); ("S", 1)]) "O"
  = count_of [("H", 2); ("O", 1)] "O" + count_of [("O", 3); ("S", 1)] "O" /\
  distinct_keys (merge_counts [("H", 2); ("O", 1)] [("O", 3); ("S", 1)]) /\
  (In "O" (keys (merge_counts [("H", 2); ("O", 1)] [("O", 3); ("S", 1)]))
   <-> In "O" (keys [("H", 2); ("O", 1)]) \/ In "O" (keys [("O", 3); ("S", 1)])) /\
  count_of (multiply_counts
              (merge_counts [("H", 2); ("O", 1)] [("O", 3); ("S", 1)]) 5) "O"
  = count_of (merge_counts (multiply_counts [("H", 2); ("O", 1)] 5)
                (multiply_counts [("O", 3); ("S", 1)] 5)) "O".
Proof.
  apply merge_counts_adds; unfold distinct_keys; simpl;
    repeat constructor; simpl; intuition discriminate.
Defined.

(** X2: [multiply_counts] multiplies every count, leaves the keys and
    their order alone, and multiplying twice is multiplying by the
    product. *)
Theorem multiply_counts_scales counts j k el :
  count_of (multiply_counts counts k) el = count_of counts el * k /\
  keys (multiply_counts counts k) = keys counts /\
  multiply_counts (multiply_counts counts j) k = multiply_counts counts (j * k).
Proof.
  split; [apply count_of_multiply|]. split; [apply multiply_counts_keys|].
  unfold multiply_counts. rewrite map_map. apply map_ext.
  intros [x n]. f_equal. lia.
Qed.

(* ================================================================= *)
(** ** How the parser composes *)

Lemma parse_unit_loop_nil f counts r rest :
  parse_unit_loop f counts [] = Some (Ok (r, rest)) -> r = counts /\ rest = [].
Proof. destruct f; simpl; intros H; inversion H; auto. Qed.

Lemma optional_number_app toks more :
  toks <> [] \/ starts_number more = false ->
  optional_number (toks ++ more)%list
  = '(mult, after) <- optional_number toks ;; Ok (mult, (after ++ more)%list).
Proof.
  intros H. destruct toks as [|[k v] toks].
  - destruct H as [H|H]; [congruence|].
    destruct more as [|[[] v] more]; try discriminate; reflexivity.
  - destruct k; try reflexivity. cbn [app optional_number].
    destruct (py_int v); reflexivity.
Qed.

(** A unit that stops before the end stops at the same place when more
    tokens follow. *)
Lemma parse_unit_loop_stop f : forall counts toks r x rest more,
  parse_unit_loop f counts toks = Some (Ok (r, x :: rest)) ->
  parse_unit_loop f counts (toks ++ more)
  = Some (Ok (r, (x :: rest) ++ more))%list.
Proof.
  induction f as [|f IH]; [discriminate|].
  intros counts toks r x rest more H.
  destruct toks as [|[k val] toks]; [simpl in H; inversion H|].
  cbn [app]. destruct k; cbn [parse_unit_loop] in H |- *.
  - (* dot *)
    destruct (parse_unit_loop f [] toks) as [[[right_ after]|e]|] eqn:E;
      try discriminate.
    inversion H; subst. rewrite (IH _ _ _ _ _ more E). reflexivity.
  - (* lparen *)
    destruct (parse_unit_loop f [] toks) as [[[inner after]|e]|] eqn:E;
      try discriminate.
    destruct after as [|[[] v] closed]; try discriminate.
    rewrite (IH _ _ _ _ _ more E). cbn [app].
    destruct (optional_number closed) as [[mult after]|e2] eqn:E2; [|discriminate].
    rewrite optional_number_app, E2; cbn [bind].
    + apply IH, H.
    + left. intros ->. simpl in E2. inversion E2; subst.
      apply parse_unit_loop_nil in H. destruct H; discriminate.
  - (* rparen *)
    inversion H; subst. reflexivity.
  - (* number *)
    destruct (py_int val) as [num|e]; [|discriminate].
    destruct toks as [|[[] v] rest1]; try discriminate; cbn [app].
    + destruct (parse_unit_loop f [] rest1) as [[[inner after]|e]|] eqn:E;
        try discriminate.
      destruct after as [|[[] v'] closed]; try discriminate.
      rewrite (IH _ _ _ _ _ more E). cbn [app].
      destruct (optional_number closed) as [[cnt after]|e2] eqn:E2; [|discriminate].
      rewrite optional_number_app, E2; cbn [bind].
      * apply IH, H.
      * left. intros ->. simpl in E2. inversion E2; subst.
        apply parse_unit_loop_nil in H. destruct H; discriminate.
    + destruct (optional_number rest1) as [[cnt after]|e2] eqn:E2; [|discriminate].
      rewrite optional_number_app, E2; cbn [bind].
      * apply IH, H.
      * left. intros ->. simpl in E2. inversion E2; subst.
        apply parse_unit_loop_nil in H. destruct H; discriminate.
  - (* elem *)
    destruct (optional_number toks) as [[mult after]|e2] eqn:E2; [|discriminate].
    rewrite optional_number_app, E2; cbn [bind].
    + apply IH, H.
    + left. intros ->. simpl in E2. inversion E2; subst.
      apply parse_unit_loop_nil in H. destruct H; discriminate.
  - (* space *)
    apply IH, H.
Qed.

(** The keys of the counts stay distinct. *)
Lemma parse_unit_loop_distinct f : forall counts toks r rest,
  distinct_keys counts ->
  parse_unit_loop f counts toks = Some (Ok (r, rest)) -> distinct_keys r.
Proof.
  induction f as [|f IH]; [discriminate|].
  intros counts toks r rest Hc H. simpl in H.
  assert (Hnil : distinct_keys (@nil (string * Z))) by constructor.
  parse_cases H; subst;
    repeat match goal with
           | E : parse_unit_loop f [] _ = Some (Ok (?c, _)) |- _ =>
               apply (IH _ _ _ _ Hnil) in E
           | E : Some _ = Some _ |- _ => inversion E; subst; clear E
           end;
    try exact Hc;
    try (apply dict_update_distinct, Hc);
    try (eapply IH; [|exact H];
         first [ apply add_count_distinct, Hc
               | apply merge_counts_distinct, Hc
               | exact Hc ]).
Qed.

Ltac count_at el :=
  repeat match goal with
         | H : forall _ : string, count_of _ _ = _ |- _ =>
             specialize (H el)
         end;
  repeat match goal with
         | H : context [count_of (add_count _ _ _) _] |- _ =>
             rewrite count_of_add_count in H
         | H : context [count_of (merge_counts _ _) _] |- _ =>
             rewrite count_of_merge in H by assumption
         | H : context [count_of (multiply_counts _ _) _] |- _ =>
             rewrite count_of_multiply in H
         end;
  repeat first [ rewrite count_of_add_count
               | rewrite count_of_update_merge by assumption
               | rewrite count_of_merge by assumption
               | rewrite count_of_multiply ];
  repeat match goal with
         | H : context [(?a =? ?b)%string] |- _ =>
             destruct (String.eqb_spec a b); try subst a
         | |- context [(?a =? ?b)%string] =>
             destruct (String.eqb_spec a b); try subst a
         end;
  try lia.

(** Starting a unit from other counts shifts its result by as much. *)
Lemma parse_unit_loop_shift f : forall c1 c2 toks r1 rest,
  distinct_keys c1 -> distinct_keys c2 ->
  parse_unit_loop f c1 toks = Some (Ok (r1, rest)) ->
  exists r2,
    parse_unit_loop f c2 toks = Some (Ok (r2, rest)) /\
    forall el, count_of r2 el = count_of c2 el + (count_of r1 el - count_of c1 el).
Proof.
  induction f as [|f IH]; [discriminate|].
  intros c1 c2 toks r1 rest H1 H2 H.
  assert (Hnil : distinct_keys (@nil (string * Z))) by constructor.
  destruct toks as [|[k val] toks].
  { simpl in H |- *. inversion H; subst. eexists; split; [reflexivity|].
    intros el; lia. }
  destruct k; cbn [parse_unit_loop] in H |- *.
  - (* dot *)
    destruct (parse_unit_loop f [] toks) as [[[right_ after]|e]|] eqn:E;
      try discriminate.
    inversion H; subst. eexists; split; [reflexivity|].
    pose proof (parse_unit_loop_distinct _ _ _ _ _ Hnil E) as Hr.
    intros el. count_at el.
  - (* lparen *)
    destruct (parse_unit_loop f [] toks) as [[[inner after]|e]|] eqn:E;
      try discriminate.
    destruct after as [|[[] v] closed]; try discriminate.
    destruct (optional_number closed) as [[mult after]|e2] eqn:E2; [|discriminate].
    pose proof (parse_unit_loop_distinct _ _ _ _ _ Hnil E) as Hi.
    pose proof (multiply_counts_distinct _ mult Hi) as Hm.
    destruct (IH _ (merge_counts c2 (multiply_counts inner mult)) _ _ _
                (merge_counts_distinct _ _ H1) (merge_counts_distinct _ _ H2) H)
      as [r2 [Hr2 Hc]].
    exists r2; split; [exact Hr2|]. intros el. count_at el.
  - (* rparen *)
    inversion H; subst. eexists; split; [reflexivity|]. intros el; lia.
  - (* number *)
    destruct (py_int val) as [num|e]; [|discriminate].
    destruct toks as [|[[] v] rest1]; try discriminate.
    + destruct (parse_unit_loop f [] rest1) as [[[inner after]|e]|] eqn:E;
        try discriminate.
      destruct after as [|[[] v'] closed]; try discriminate.
      destruct (optional_number closed) as [[cnt after]|e2] eqn:E2; [|discriminate].
      pose proof (parse_unit_loop_distinct _ _ _ _ _ Hnil E) as Hi.
      pose proof (multiply_counts_distinct _ (num * cnt) Hi) as Hm.
      destruct (IH _ (merge_counts c2
                        (multiply_counts inner (num * cnt)))
                  _ _ _
                  (merge_counts_distinct _ _ H1) (merge_counts_distinct _ _ H2) H)
        as [r2 [Hr2 Hc]].
      exists r2; split; [exact Hr2|]. intros el. count_at el.
    + destruct (optional_number rest1) as [[cnt after]|e2] eqn:E2; [|discriminate].
      destruct (IH _ (add_count c2 v (num * cnt)) _ _ _
                  (add_count_distinct _ _ _ H1) (add_count_distinct _ _ _ H2) H)
        as [r2 [Hr2 Hc]].
      exists r2; split; [exact Hr2|]. intros el. count_at el.
  - (* elem *)
    destruct (optional_number toks) as [[mult after]|e2] eqn:E2; [|discriminate].
    destruct (IH _ (add_count c2 val mult) _ _ _
                (add_count_distinct _ _ _ H1) (add_count_distinct _ _ _ H2) H)
      as [r2 [Hr2 Hc]].
    exists r2; split; [exact Hr2|]. intros el. count_at el.
  - (* space *)
    apply IH; assumption.
Qed.

Lemma parse_unit_loop_end f : forall counts toks r rest,
  parse_unit_loop f counts toks = Some (Ok (r, rest)) -> at_unit_end rest = true.
Proof.
  induction f as [|f IH]; [discriminate|].
  intros counts toks r rest H. simpl in H.
  parse_cases H; subst;
    repeat match goal with
           | E : Some _ = Some _ |- _ => inversion E; subst; clear E
           end;
    try reflexivity;
    try (eapply IH; eassumption).
Qed.

(** Tokens that follow a unit parsed to its end are parsed as if they
    stood alone, and their counts are added. *)
Lemma parse_unit_loop_seq f : forall counts toks r,
  distinct_keys counts ->
  parse_unit_loop f counts toks = Some (Ok (r, [])) ->
  forall more g b rest,
    starts_number more = false ->
    parse_unit_loop g [] more = Some (Ok (b, rest)) ->
    exists r',
      parse_unit_loop (f + g) counts (toks ++ more) = Some (Ok (r', rest)) /\
      forall el, count_of r' el = count_of r el + count_of b el.
Proof.
  induction f as [|f IH]; [discriminate|].
  intros counts toks r Hc H more g b rest Hmore Hb.
  assert (Hnil : distinct_keys (@nil (string * Z))) by constructor.
  assert (Hopt : forall ts mult after,
            optional_number ts = Ok (mult, after) ->
            optional_number (ts ++ more) = Ok (mult, (after ++ more)%list)).
  { intros ts mult after E. rewrite optional_number_app, E; [reflexivity|].
    right; exact Hmore. }
  destruct toks as [|[k val] toks].
  { simpl in H. inversion H; subst. cbn [app].
    destruct (parse_unit_loop_shift _ [] r _ _ _ Hnil Hc Hb) as [r' [Hr' Hcount]].
    exists r'. split.
    - apply (parse_unit_loop_more _ _ _ _ Hr'). lia.
    - intros el. specialize (Hcount el). unfold count_of at 4 in Hcount.
      simpl in Hcount. lia. }
  cbn [app plus]. destruct k; cbn [parse_unit_loop] in H |- *.
  - (* dot *)
    destruct (parse_unit_loop f [] toks) as [[[right_ after]|e]|] eqn:E;
      try discriminate.
    inversion H; subst.
    destruct (IH _ _ _ Hnil E more g b rest Hmore Hb) as [right' [Hr' Hcount]].
    rewrite Hr'. eexists; split; [reflexivity|].
    pose proof (parse_unit_loop_distinct _ _ _ _ _ Hnil E) as Hd.
    pose proof (parse_unit_loop_distinct _ _ _ _ _ Hnil Hr') as Hd'.
    intros el. count_at el.
  - (* lparen *)
    destruct (parse_unit_loop f [] toks) as [[[inner after]|e]|] eqn:E;
      try discriminate.
    destruct after as [|[[] v] closed]; try discriminate.
    rewrite (parse_unit_loop_more _ _ _ _
               (parse_unit_loop_stop _ _ _ _ _ _ more E) (f + g)) by lia.
    cbn [app].
    destruct (optional_number closed) as [[mult after]|e2] eqn:E2; [|discriminate].
    rewrite (Hopt _ _ _ E2).
    apply (IH _ _ _ (merge_counts_distinct _ _ Hc) H); assumption.
  - (* rparen *)
    discriminate.
  - (* number *)
    destruct (py_int val) as [num|e]; [|discriminate].
    destruct toks as [|[[] v] rest1]; try discriminate; cbn [app].
    + destruct (parse_unit_loop f [] rest1) as [[[inner after]|e]|] eqn:E;
        try discriminate.
      destruct after as [|[[] v'] closed]; try discriminate.
      rewrite (parse_unit_loop_more _ _ _ _
                 (parse_unit_loop_stop _ _ _ _ _ _ more E) (f + g)) by lia.
      cbn [app].
      destruct (optional_number closed) as [[cnt after]|e2] eqn:E2; [|discriminate].
      rewrite (Hopt _ _ _ E2).
      apply (IH _ _ _ (merge_counts_distinct _ _ Hc) H); assumption.
    + destruct (optional_number rest1) as [[cnt after]|e2] eqn:E2; [|discriminate].
      rewrite (Hopt _ _ _ E2).
      apply (IH _ _ _ (add_count_distinct _ _ _ Hc) H); assumption.
  - (* elem *)
    destruct (optional_number toks) as [[mult after]|e2] eqn:E2; [|discriminate].
    rewrite (Hopt _ _ _ E2).
    apply (IH _ _ _ (add_count_distinct _ _ _ Hc) H); assumption.
  - (* space *)
    apply (IH _ _ _ Hc H); assumption.
Qed.

(* ================================================================= *)
(** ** How the tokenizer composes *)

Lemma break_class c :
  is_break c = true ->
  is_digit c = false /\ is_lower c = false /\ is_space c = false.
Proof. all_chars c. Qed.

Lemma span_app_rest p x b : forall run rest,
  span p x = (run, rest) ->
  first_sat (fun c => negb (p c)) b = true ->
  span p (x ++ b) = (run, rest ++ b).
Proof.
  induction x as [|c x IH]; simpl; intros run rest H Hb.
  - inversion H; subst. destruct b as [|d b]; [reflexivity|]. simpl in Hb |- *.
    destruct (p d); [discriminate|reflexivity].
  - destruct (p c).
    + destruct (span p x) as [run' rest'] eqn:E. inversion H; subst.
      rewrite (IH _ _ eq_refl Hb). reflexivity.
    + inversion H; subst. reflexivity.
Qed.

Lemma break_first b :
  first_sat is_break b = true ->
  first_sat (fun c => negb (is_digit c)) b = true /\
  first_sat (fun c => negb (is_lower c)) b = true /\
  first_sat (fun c => negb (is_space c)) b = true.
Proof.
  destruct b as [|c b]; simpl; [auto|]. intros H.
  destruct (break_class c H) as (-> & -> & ->). auto.
Qed.

Lemma match_token_app a b k val rest :
  match_token a = Some (k, val, rest) ->
  first_sat is_break b = true ->
  match_token (a ++ b) = Some (k, val, rest ++ b).
Proof.
  intros H Hb. destruct (break_first b Hb) as (Hdig & Hlow & Hsp).
  destruct a as [|c a]; [discriminate|]. cbn [append]. simpl in H |- *.
  destruct (is_dot c); [inversion H; reflexivity|].
  destruct (is_lparen c); [inversion H; reflexivity|].
  destruct (is_rparen c); [inversion H; reflexivity|].
  destruct (is_digit c).
  { destruct (span is_digit a) as [run r] eqn:E. inversion H; subst.
    rewrite (span_app_rest _ _ _ _ _ E Hdig). reflexivity. }
  destruct (is_upper c).
  { destruct a as [|d a]; simpl.
    - inversion H; subst. destruct b as [|d b]; [reflexivity|].
      simpl in Hlow. destruct (is_lower d); [discriminate|reflexivity].
    - destruct (is_lower d); inversion H; reflexivity. }
  destruct (is_space c); [|discriminate].
  destruct (span is_space a) as [run r] eqn:E. inversion H; subst.
  rewrite (span_app_rest _ _ _ _ _ E Hsp). reflexivity.
Qed.

Lemma tokenize_app_len n : forall a b ta,
  (String.length a <= n)%nat ->
  tokenize a = Ok ta -> first_sat is_break b = true ->
  tokenize (a ++ b) = tb <- tokenize b ;; Ok (ta ++ tb)%list.
Proof.
  induction n as [|n IH]; intros a b ta Hn Ha Hb;
    (destruct a as [|c a];
     [rewrite tokenize_step in Ha; inversion Ha; subst; simpl;
      destruct (tokenize b); reflexivity|]);
    simpl in Hn; [lia|].
  rewrite tokenize_step in Ha.
  destruct (match_token (String c a)) as [[[k val] rest]|] eqn:E; [|discriminate].
  rewrite tokenize_step. cbn [append].
  change (String c (a ++ b)) with (String c a ++ b).
  rewrite (match_token_app _ _ _ _ _ E Hb).
  apply match_token_shorter in E. simpl in E.
  destruct (tokenize rest) as [toks|e] eqn:Er; [|discriminate].
  rewrite (IH rest b toks) by (try lia; auto).
  simpl in Ha. inversion Ha; subst.
  destruct (tokenize b) as [tb|e]; [|reflexivity]. simpl.
  destruct (kind_eqb k Kspace); reflexivity.
Qed.

Lemma tokenize_app a b ta :
  tokenize a = Ok ta -> first_sat is_break b = true ->
  tokenize (a ++ b) = tb <- tokenize b ;; Ok (ta ++ tb)%list.
Proof. apply (tokenize_app_len (String.length a)). lia. Qed.

Lemma tokenize_break_first b tb :
  first_sat is_break b = true -> tokenize b = Ok tb -> starts_number tb = false.
Proof.
  intros Hb H. rewrite tokenize_step in H.
  destruct b as [|c b]; [inversion H; reflexivity|].
  simpl in Hb. destruct (break_class c Hb) as (Hd & _ & Hs).
  unfold match_token in H. unfold is_break in Hb.
  destruct (is_dot c), (is_lparen c), (is_rparen c);
    try (destruct (tokenize b); inversion H; reflexivity).
  rewrite Hd in H. rewrite !orb_false_r in Hb. rewrite Hb in H.
  destruct b as [|d b].
  - destruct (tokenize ""); inversion H; reflexivity.
  - destruct (is_lower d);
      match type of H with
      | context [tokenize ?s] => destruct (tokenize s)
      end; inversion H; reflexivity.
Qed.

(* ================================================================= *)
(** ** Formulas built from formulas *)

Lemma parse_formula_run s counts :
  parse_formula s = Ok counts ->
  exists tokens,
    tokenize s = Ok tokens /\
    parse_unit_loop (S (List.length tokens)) [] tokens = Some (Ok (counts, [])).
Proof.
  unfold parse_formula. destruct (tokenize s) as [tokens|e]; [|discriminate].
  cbn [bind]. intros H. exists tokens. split; [reflexivity|].
  destruct (parse_unit_loop_total (S (List.length tokens)) [] tokens) as [r E];
    [lia|].
  rewrite (parse_tokens_run _ _ _ E) in H. rewrite E.
  destruct r as [[total rest]|e]; [|discriminate].
  pose proof (parse_unit_loop_end _ _ _ _ _ E) as Hend.
  destruct rest as [|[[] v] rest]; try discriminate; inversion H; reflexivity.
Qed.

Lemma parse_formula_of_run s tokens f counts :
  tokenize s = Ok tokens ->
  parse_unit_loop f [] tokens = Some (Ok (counts, [])) ->
  parse_formula s = Ok counts.
Proof.
  intros Ht H. unfold parse_formula. rewrite Ht. cbn [bind].
  rewrite (parse_tokens_run _ _ _ H). reflexivity.
Qed.

Lemma distinct_nil : distinct_keys (@nil (string * Z)).
Proof. constructor. Qed.

(** X3: writing one accepted formula after another gives a formula that
    is accepted and has the counts of both added, provided the second one
    is empty or starts with an upper-case letter, a bracket or a dot. *)
Theorem parse_formula_concat a b ca cb :
  parse_formula a = Ok ca -> parse_formula b = Ok cb ->
  first_sat is_break b = true ->
  exists r,
    parse_formula (a ++ b) = Ok r /\
    forall el, count_of r el = count_of ca el + count_of cb el.
Proof.
  intros Ha Hb Hfirst.
  destruct (parse_formula_run _ _ Ha) as [ta [Hta Hra]].
  destruct (parse_formula_run _ _ Hb) as [tb [Htb Hrb]].
  destruct (parse_unit_loop_seq _ _ _ _ distinct_nil Hra tb _ _ _
              (tokenize_break_first _ _ Hfirst Htb) Hrb) as [r [Hr Hcount]].
  exists r. split; [|exact Hcount].
  eapply parse_formula_of_run; [|exact Hr].
  rewrite (tokenize_app _ _ _ Hta Hfirst), Htb. reflexivity.
Qed.

Lemma parse_formula_concat_witness :
  exists r,
    parse_formula ("Ca3" ++ "(PO4)2") = Ok r /\
    forall el, count_of r el
               = count_of [("Ca", 3)] el + count_of [("P", 2); ("O", 8)] el.
Proof.
  exact (parse_formula_concat "Ca3" "(PO4)2" _ _ eq_refl eq_refl eq_refl).
Defined.

(** X4: two accepted formulas joined by a dot, [.] or [·], are accepted
    and have the counts of both added, whatever the second one starts
    with. *)
Theorem parse_formula_dot a b d ca cb :
  parse_formula a = Ok ca -> parse_formula b = Ok cb -> is_dot d = true ->
  exists r,
    parse_formula (a ++ String d b) = Ok r /\
    forall el, count_of r el = count_of ca el + count_of cb el.
Proof.
  intros Ha Hb Hd.
  destruct (parse_formula_run _ _ Ha) as [ta [Hta Hra]].
  destruct (parse_formula_run _ _ Hb) as [tb [Htb Hrb]].
  assert (Hfirst : first_sat is_break (String d b) = true).
  { simpl. unfold is_break. rewrite Hd. destruct (is_upper d); reflexivity. }
  assert (Htd : tokenize (String d b) = Ok ((Kdot, String d "") :: tb)).
  { rewrite tokenize_step. unfold match_token. rewrite Hd, Htb. reflexivity. }
  assert (Hrd : parse_unit_loop (S (S (List.length tb))) []
                  ((Kdot, String d "") :: tb)
                = Some (Ok (dict_update [] (merge_counts [] cb), []))).
  { cbn [parse_unit_loop]. cbn [parse_unit_loop] in Hrb. rewrite Hrb.
    reflexivity. }
  destruct (parse_unit_loop_seq _ _ _ _ distinct_nil Hra
              ((Kdot, String d "") :: tb) _ _ _ eq_refl Hrd)
    as [r [Hr Hcount]].
  exists r. split.
  - eapply parse_formula_of_run; [|exact Hr].
    rewrite (tokenize_app _ _ _ Hta Hfirst), Htd. reflexivity.
  - intros el. rewrite Hcount.
    rewrite count_of_update_merge;
      [reflexivity | exact distinct_nil |].
    apply (parse_unit_loop_distinct _ _ _ _ _ distinct_nil Hrb).
Qed.

Lemma parse_formula_dot_witness :
  exists r,
    parse_formula ("CuSO4" ++ String middot "5(H2O)") = Ok r /\
    forall el, count_of r el
               = count_of [("Cu", 1); ("S", 1); ("O", 4)] el
                 + count_of [("H", 10); ("O", 5)] el.
Proof.
  exact (parse_formula_dot "CuSO4" "5(H2O)" middot _ _ eq_refl eq_refl eq_refl).
Defined.

Lemma bracket_class c :
  (is_lparen c = true -> is_dot c = false /\ is_digit c = false) /\
  (is_rparen c = true -> is_dot c = false /\ is_lparen c = false).
Proof. split; all_chars c. Qed.

Lemma tokenize_optional_digits val :
  optional_digits val = true -> short val = true ->
  exists toks,
    tokenize val = Ok toks /\
    optional_number toks = Ok (multiplier_of val, []).
Proof.
  destruct val as [|c val]; [exists []; split; reflexivity|].
  intros H Hs. exists [(Knumber, String c val)].
  split; [apply tokenize_number, H|].
  cbn [optional_number]. rewrite (py_int_short _ Hs). reflexivity.
Qed.

(** X5: an accepted formula [a] put in brackets of any kind, with an
    optional number before the opening bracket and an optional number
    after the closing one, each of at most [max_str_digits] digits, is
    accepted and has the counts of [a] times the product of the two
    numbers, each taken as 1 when absent. *)
Theorem parse_formula_group a ca pre post o c :
  parse_formula a = Ok ca ->
  is_lparen o = true -> is_rparen c = true ->
  optional_digits pre = true -> short pre = true ->
  optional_digits post = true -> short post = true ->
  exists r,
    parse_formula (pre ++ String o (a ++ String c post)) = Ok r /\
    forall el,
      count_of r el = count_of ca el * (multiplier_of pre * multiplier_of post).
Proof.
  intros Ha Ho Hc Hpre Hspre Hpost Hspost.
  destruct (parse_formula_run _ _ Ha) as [ta [Hta Hra]].
  destruct (tokenize_optional_digits _ Hpost Hspost) as [tpost [Htpost Hopost]].
  destruct (proj1 (bracket_class o) Ho) as [Hodot Hodig].
  destruct (proj2 (bracket_class c) Hc) as [Hcdot Hclp].
  assert (Hbreak : first_sat is_break (String c post) = true).
  { simpl. unfold is_break. rewrite Hc. apply orb_true_r. }
  assert (Htc : tokenize (String c post) = Ok ((Krparen, String c "") :: tpost)).
  { rewrite tokenize_step. unfold match_token. rewrite Hcdot, Hclp, Hc, Htpost.
    reflexivity. }
  assert (Htgroup : tokenize (String o (a ++ String c post))
                    = Ok ((Klparen, String o "")
                            :: ta ++ (Krparen, String c "") :: tpost)%list).
  { rewrite tokenize_step. unfold match_token. rewrite Hodot, Ho.
    rewrite (tokenize_app _ _ _ Hta Hbreak), Htc. reflexivity. }
  assert (Hstop : parse_unit_loop 1 [] ((Krparen, String c "") :: tpost)
                  = Some (Ok ([], (Krparen, String c "") :: tpost)))
    by reflexivity.
  destruct (parse_unit_loop_seq _ _ _ _ distinct_nil Hra
              ((Krparen, String c "") :: tpost) _ _ _ eq_refl Hstop)
    as [inner [Hinner Hcount]].
  pose proof (parse_unit_loop_distinct _ _ _ _ _ distinct_nil Hinner) as Hd.
  set (F := (S (List.length ta) + 1)%nat) in *.
  assert (Hfin : forall counts, parse_unit_loop F counts [] = Some (Ok (counts, [])))
    by reflexivity.
  destruct pre as [|p pre].
  - exists (merge_counts [] (multiply_counts inner (multiplier_of post))).
    split.
    + eapply (parse_formula_of_run _ _ (S F)); [exact Htgroup|].
      cbn [parse_unit_loop]. rewrite Hinner, Hopost. apply Hfin.
    + intros el.
      rewrite count_of_merge by (apply multiply_counts_distinct, Hd).
      rewrite count_of_multiply, Hcount. unfold count_of at 1 3.
      cbn [dict_get]. change (multiplier_of "") with 1. lia.
  - exists (merge_counts []
              (multiply_counts inner
                 (int_of_digits (String p pre) * multiplier_of post))).
    split.
    + eapply (parse_formula_of_run _ _ (S F)).
      * rewrite tokenize_digits; [rewrite Htgroup; reflexivity | exact Hpre |].
        simpl. rewrite Hodig. reflexivity.
      * cbn [parse_unit_loop]. rewrite (py_int_short _ Hspre), Hinner, Hopost.
        apply Hfin.
    + intros el.
      rewrite count_of_merge by (apply multiply_counts_distinct, Hd).
      rewrite count_of_multiply, Hcount. unfold count_of at 1 3.
      cbn [dict_get].
      change (multiplier_of (String p pre)) with (int_of_digits (String p pre)).
      lia.
Qed.

Lemma parse_formula_group_witness :
  exists r,
    parse_formula ("2" ++ String "[" ("NH4" ++ String "}" "3")) = Ok r /\
    forall el,
      count_of r el
      = count_of [("N", 1); ("H", 4)] el * (multiplier_of "2" * multiplier_of "3").
Proof.
  exact (parse_formula_group "NH4" _ "2" "3" "[" "}"
           eq_refl eq_refl eq_refl eq_refl eq_refl eq_refl eq_refl).
Defined.

(* ================================================================= *)
(** ** Brackets and errors of the parser *)

Lemma scan_brackets_app a : forall d b,
  scan_brackets d (a ++ b)
  = match scan_brackets d a with
    | Some d' => scan_brackets d' b
    | None => None
    end.
Proof.
  induction a as [|[k v] a IH]; intros d b; [reflexivity|].
  destruct k; cbn [app scan_brackets]; try apply IH.
  destruct d; [reflexivity | apply IH].
Qed.

Lemma optional_number_split toks mult after :
  optional_number toks = Ok (mult, after) ->
  exists num, toks = (num ++ after)%list /\
              forall d, scan_brackets d num = Some d.
Proof.
  intros H. destruct toks as [|[k v] toks].
  - inversion H; subst. exists []; auto.
  - destruct k; simpl in H;
      try (inversion H; subst; exists []; split; [reflexivity | auto]; fail).
    destruct (py_int v); inversion H; subst.
    exists [(Knumber, v)]; split; [reflexivity | auto].
Qed.

(** What a unit consumes has its brackets matched. *)
Lemma parse_unit_loop_nested f : forall counts toks r rest,
  parse_unit_loop f counts toks = Some (Ok (r, rest)) ->
  exists used, toks = (used ++ rest)%list /\
               forall d, scan_brackets d used = Some d.
Proof.
  induction f as [|f IH]; [discriminate|].
  intros counts toks r rest H.
  destruct toks as [|[k val] toks].
  { simpl in H. inversion H; subst. exists []; auto. }
  destruct k; cbn [parse_unit_loop] in H.
  - destruct (parse_unit_loop f [] toks) as [[[right_ after]|e]|] eqn:E;
      try discriminate.
    inversion H; subst. destruct (IH _ _ _ _ E) as [used [-> Hs]].
    exists ((Kdot, val) :: used). split; [reflexivity|]. intros d. apply Hs.
  - destruct (parse_unit_loop f [] toks) as [[[inner after]|e]|] eqn:E;
      try discriminate.
    destruct after as [|[[] v] closed]; try discriminate.
    destruct (optional_number closed) as [[mult after]|e2] eqn:E2; [|discriminate].
    destruct (IH _ _ _ _ E) as [used1 [-> Hs1]].
    destruct (optional_number_split _ _ _ E2) as [num [-> Hnum]].
    destruct (IH _ _ _ _ H) as [used2 [-> Hs2]].
    exists ((Klparen, val) :: used1 ++ (Krparen, v) :: num ++ used2)%list.
    split.
    + cbn [app]. f_equal. rewrite <- !app_assoc. cbn [app]. f_equal. f_equal.
      rewrite <- app_assoc. reflexivity.
    + intros d. cbn [scan_brackets]. rewrite scan_brackets_app, Hs1.
      cbn [scan_brackets]. rewrite scan_brackets_app, Hnum. apply Hs2.
  - inversion H; subst. exists []; auto.
  - destruct (py_int val) as [num0|e]; [|discriminate].
    destruct toks as [|[[] v] rest1]; try discriminate.
    + destruct (parse_unit_loop f [] rest1) as [[[inner after]|e]|] eqn:E;
        try discriminate.
      destruct after as [|[[] v'] closed]; try discriminate.
      destruct (optional_number closed) as [[cnt after]|e2] eqn:E2; [|discriminate].
      destruct (IH _ _ _ _ E) as [used1 [-> Hs1]].
      destruct (optional_number_split _ _ _ E2) as [num [-> Hnum]].
      destruct (IH _ _ _ _ H) as [used2 [-> Hs2]].
      exists ((Knumber, val) :: (Klparen, v)
                :: used1 ++ (Krparen, v') :: num ++ used2)%list.
      split.
      * cbn [app]. f_equal. f_equal. rewrite <- !app_assoc. cbn [app].
        f_equal. f_equal. rewrite <- app_assoc. reflexivity.
      * intros d. cbn [scan_brackets]. rewrite scan_brackets_app, Hs1.
        cbn [scan_brackets]. rewrite scan_brackets_app, Hnum. apply Hs2.
    + destruct (optional_number rest1) as [[cnt after]|e2] eqn:E2; [|discriminate].
      destruct (optional_number_split _ _ _ E2) as [num [-> Hnum]].
      destruct (IH _ _ _ _ H) as [used2 [-> Hs2]].
      exists ((Knumber, val) :: (Kelem, v) :: num ++ used2)%list.
      split; [cbn [app]; rewrite <- app_assoc; reflexivity|].
      intros d. cbn [scan_brackets]. rewrite scan_brackets_app, Hnum. apply Hs2.
  - destruct (optional_number toks) as [[mult after]|e2] eqn:E2; [|discriminate].
    destruct (optional_number_split _ _ _ E2) as [num [-> Hnum]].
    destruct (IH _ _ _ _ H) as [used2 [-> Hs2]].
    exists ((Kelem, val) :: num ++ used2)%list.
    split; [cbn [app]; rewrite <- app_assoc; reflexivity|].
    intros d. cbn [scan_brackets]. rewrite scan_brackets_app, Hnum. apply Hs2.
  - destruct (IH _ _ _ _ H) as [used [-> Hs]].
    exists ((Kspace, val) :: used). split; [reflexivity|]. intros d. apply Hs.
Qed.

(** X6: in every accepted formula the brackets are well nested: each
    closing bracket has an opening one before it and none is left open,
    the kind of bracket playing no part. *)
Theorem accepted_well_nested s tokens counts :
  tokenize s = Ok tokens -> parse_formula s = Ok counts -> well_nested tokens.
Proof.
  intros Ht H. destruct (parse_formula_run _ _ H) as [ts [Hts Hrun]].
  rewrite Ht in Hts. inversion Hts; subst ts.
  destruct (parse_unit_loop_nested _ _ _ _ _ Hrun) as [used [Hused Hs]].
  rewrite app_nil_r in Hused. subst used. apply Hs.
Qed.

Lemma accepted_well_nested_witness :
  well_nested [(Kelem, "Ca"); (Klparen, "["); (Kelem, "P"); (Klparen, "(");
               (Kelem, "O"); (Krparen, "}"); (Knumber, "4"); (Krparen, ")")].
Proof. exact (accepted_well_nested "Ca[P(O}4)" _ _ eq_refl eq_refl). Defined.

Lemma optional_number_raise toks e :
  optional_number toks = Raise e -> e = NumeralTooLong.
Proof.
  destruct toks as [|[[] v] toks]; simpl; try discriminate.
  destruct (py_int v) eqn:E; [discriminate|].
  intros H; inversion H; subst. exact (py_int_raise _ _ E).
Qed.

(** The errors of a unit: three messages of the parser, and the error of
    [int] on a number of too many digits. *)
Lemma parse_unit_loop_errors f : forall counts toks e,
  parse_unit_loop f counts toks = Some (Raise e) ->
  e = FormulaParseError MissingClose \/
  e = FormulaParseError NumberWithoutTarget \/
  e = FormulaParseError MissingCloseAfterNumber \/
  e = NumeralTooLong.
Proof.
  induction f as [|f IH]; [discriminate|].
  intros counts toks e H. simpl in H.
  parse_cases H; subst;
    repeat match goal with
           | E : Some _ = Some _ |- _ => inversion E; subst; clear E
           | E : optional_number _ = Raise _ |- _ =>
               apply optional_number_raise in E; subst
           | E : py_int _ = Raise _ |- _ => apply py_int_raise in E; subst
           end;
    auto;
    try (eapply IH; eassumption).
Qed.

Lemma tokenize_errors_len n : forall s e,
  (String.length s <= n)%nat -> tokenize s = Raise e ->
  exists excerpt, e = FormulaParseError (UnrecognizedNear excerpt).
Proof.
  induction n as [|n IH]; intros s e Hn H; rewrite tokenize_step in H;
    destruct s as [|c s]; try discriminate; simpl in Hn; try lia.
  destruct (match_token (String c s)) as [[[k val] rest]|] eqn:E.
  - apply match_token_shorter in E. simpl in E.
    destruct (tokenize rest) as [toks|e'] eqn:Er; [discriminate|].
    simpl in H. inversion H; subst. apply (IH rest); [lia | exact Er].
  - inversion H. eauto.
Qed.

(** X7: every [FormulaParseError] that [parse_formula] raises carries a
    message of the tokenizer or of the parser: an unrecognized character,
    a bracket left open, a number with nothing to multiply or a closing
    bracket too many.  It never looks up an element, so the message of an
    unknown symbol is not among them. *)
Theorem parse_formula_errors s msg :
  parse_formula s = Raise (FormulaParseError msg) ->
  parse_failure (FormulaParseError msg) /\
  (spec_kind (FormulaParseError msg) = Some UnrecognizedToken \/
   spec_kind (FormulaParseError msg) = Some UnclosedGroup \/
   spec_kind (FormulaParseError msg) = Some DanglingMultiplier \/
   spec_kind (FormulaParseError msg) = Some ExtraClosingParen).
Proof.
  unfold parse_formula. destruct (tokenize s) as [tokens|e'] eqn:Et.
  - cbn [bind]. intros H.
    destruct (parse_unit_loop_total (S (List.length tokens)) [] tokens)
      as [r E]; [lia|].
    rewrite (parse_tokens_run _ _ _ E) in H.
    destruct r as [[total rest]|e''].
    + destruct rest as [|[[] v] rest]; inversion H; subst; simpl; auto.
    + inversion H; subst.
      destruct (parse_unit_loop_errors _ _ _ _ E) as [H0|[H0|[H0|H0]]];
        inversion H0; subst; simpl; auto.
  - cbn [bind]. intros H. inversion H; subst.
    destruct (tokenize_errors_len _ _ _ (le_n _) Et) as [excerpt Hx].
    inversion Hx; subst. simpl; auto.
Qed.

Lemma parse_formula_errors_witness :
  parse_failure (FormulaParseError MissingClose) /\
  (spec_kind (FormulaParseError MissingClose) = Some UnrecognizedToken \/
   spec_kind (FormulaParseError MissingClose) = Some UnclosedGroup \/
   spec_kind (FormulaParseError MissingClose) = Some DanglingMultiplier \/
   spec_kind (FormulaParseError MissingClose) = Some ExtraClosingParen).
Proof. exact (parse_formula_errors "Ca(PO4" _ eq_refl). Defined.

(* ================================================================= *)
(** ** What the tokenizer keeps and where it fails *)

Lemma token_char_class c :
  is_dot c || is_lparen c || is_rparen c || is_digit c || is_upper c
  || is_lower c = true ->
  is_space c = false.
Proof. all_chars c. Qed.

Lemma squeeze_app a b : squeeze (a ++ b) = squeeze a ++ squeeze b.
Proof.
  induction a as [|c a IH]; simpl; [reflexivity|].
  destruct (is_space c); rewrite IH; reflexivity.
Qed.

Lemma span_text p s : forall run rest, span p s = (run, rest) -> s = run ++ rest.
Proof.
  induction s as [|c s IH]; simpl; intros run rest H.
  - inversion H; reflexivity.
  - destruct (p c).
    + destruct (span p s) as [run' rest'] eqn:E. inversion H; subst.
      simpl. rewrite (IH _ _ eq_refl) at 1. reflexivity.
    + inversion H; reflexivity.
Qed.

Lemma squeeze_spaces s :
  forallb is_space (list_ascii_of_string s) = true -> squeeze s = "".
Proof.
  induction s as [|c s IH]; simpl; [reflexivity|].
  intros H. apply andb_prop in H. destruct H as [Hc Hs]. rewrite Hc. auto.
Qed.

Lemma squeeze_digits s :
  forallb is_digit (list_ascii_of_string s) = true -> squeeze s = s.
Proof.
  induction s as [|c s IH]; simpl; [reflexivity|].
  intros H. apply andb_prop in H. destruct H as [Hc Hs].
  rewrite (token_char_class c), (IH Hs); [reflexivity|].
  rewrite Hc. destruct (is_dot c), (is_lparen c), (is_rparen c); reflexivity.
Qed.

Lemma match_token_text s k val rest :
  match_token s = Some (k, val, rest) ->
  s = val ++ rest /\
  squeeze val = (if kind_eqb k Kspace then "" else val).
Proof.
  destruct s as [|c s]; simpl; [discriminate|].
  assert (one : forall b, b = true ->
            is_dot c || is_lparen c || is_rparen c || is_digit c || is_upper c
            || is_lower c = true ->
            (if is_space c then "" else String c "") = String c "").
  { intros b _ H. rewrite (token_char_class c H). reflexivity. }
  destruct (is_dot c) eqn:E1.
  { intros H; inversion H; subst. split; [reflexivity|].
    apply (one true eq_refl). reflexivity. }
  destruct (is_lparen c) eqn:E2.
  { intros H; inversion H; subst. split; [reflexivity|].
    apply (one true eq_refl). reflexivity. }
  destruct (is_rparen c) eqn:E3.
  { intros H; inversion H; subst. split; [reflexivity|].
    apply (one true eq_refl). reflexivity. }
  destruct (is_digit c) eqn:E4.
  { destruct (span is_digit s) as [run r] eqn:E. intros H; inversion H; subst.
    split; [simpl; rewrite (span_text _ _ _ _ E) at 1; reflexivity|].
    apply (squeeze_digits (String c run)). simpl. rewrite E4.
    apply (span_forall _ _ _ _ E). }
  destruct (is_upper c) eqn:E5.
  { assert (Hc : is_space c = false).
    { apply token_char_class. rewrite E1, E2, E3, E4, E5. reflexivity. }
    destruct s as [|d s].
    - intros H; inversion H; subst. split; [reflexivity|].
      simpl. rewrite Hc. reflexivity.
    - destruct (is_lower d) eqn:E6; intros H; inversion H; subst;
        (split; [reflexivity|]); simpl; rewrite Hc; [|reflexivity].
      rewrite (token_char_class d); [reflexivity|].
      rewrite E6. repeat rewrite orb_true_r. reflexivity. }
  destruct (is_space c) eqn:E6; [|discriminate].
  destruct (span is_space s) as [run r] eqn:E. intros H; inversion H; subst.
  split; [simpl; rewrite (span_text _ _ _ _ E) at 1; reflexivity|].
  apply (squeeze_spaces (String c run)). simpl. rewrite E6.
  apply (span_forall _ _ _ _ E).
Qed.

Lemma tokenize_texts_len n : forall s tokens,
  (String.length s <= n)%nat -> tokenize s = Ok tokens ->
  String.concat "" (map snd tokens) = squeeze s /\
  (List.length tokens <= String.length s)%nat.
Proof.
  induction n as [|n IH]; intros s tokens Hn H; rewrite tokenize_step in H;
    (destruct s as [|c s]; [inversion H; split; [reflexivity | simpl; lia]|]);
    simpl in Hn; [lia|].
  destruct (match_token (String c s)) as [[[k val] rest]|] eqn:E; [|discriminate].
  pose proof (match_token_shorter _ _ _ _ E) as Hlen. simpl in Hlen.
  destruct (match_token_text _ _ _ _ E) as [Hs Hval].
  destruct (tokenize rest) as [toks|e] eqn:Er; [|discriminate].
  destruct (IH rest toks) as [IH1 IH2]; [lia | exact Er |].
  simpl in H. inversion H; subst tokens. rewrite Hs, squeeze_app, Hval.
  rewrite <- Hs.
  destruct (kind_eqb k Kspace).
  - split; [exact IH1 | simpl; lia].
  - cbn [map snd]. rewrite concat_cons, IH1.
    split; [reflexivity | simpl; lia].
Qed.

(** X8: [tokenize] yields element symbols of the form one upper-case
    letter and at most one lower-case letter, numbers of one or more
    digits, dots and brackets, and never white space; there are no more
    tokens than characters. *)
Theorem tokenize_yields s tokens :
  tokenize s = Ok tokens ->
  Forall token_ok tokens /\ (List.length tokens <= String.length s)%nat.
Proof.
  intros H. split; [apply (tokenize_ok _ _ H)|].
  apply (tokenize_texts_len (String.length s) s tokens (le_n _) H).
Qed.

Lemma tokenize_yields_witness :
  Forall token_ok [(Kelem, "Ca"); (Knumber, "3"); (Klparen, "(");
                   (Kelem, "P"); (Kelem, "O"); (Knumber, "4");
                   (Krparen, ")"); (Knumber, "2")] /\
  (List.length [(Kelem, "Ca"); (Knumber, "3"); (Klparen, "(");
                (Kelem, "P"); (Kelem, "O"); (Knumber, "4");
                (Krparen, ")"); (Knumber, "2")]
   <= String.length "Ca3 (PO4)2")%nat.
Proof. exact (tokenize_yields "Ca3 (PO4)2" _ eq_refl). Defined.

(** X9: the tokens lose nothing but white space: their texts, put
    together in order, are the formula without its white space. *)
Theorem tokenize_keeps_text s tokens :
  tokenize s = Ok tokens ->
  String.concat "" (map snd tokens) = squeeze s.
Proof.
  intros H. apply (tokenize_texts_len (String.length s) s tokens (le_n _) H).
Qed.

Lemma tokenize_keeps_text_witness :
  String.concat ""
    (map snd [(Kelem, "Cu"); (Kelem, "S"); (Kelem, "O"); (Knumber, "4");
              (Kdot, "."); (Knumber, "5"); (Kelem, "H"); (Knumber, "2");
              (Kelem, "O")])
  = squeeze "Cu SO4 . 5 H2O".
Proof. exact (tokenize_keeps_text "Cu SO4 . 5 H2O" _ eq_refl). Defined.





Lemma space_class c :
  is_space c = true ->
  is_dot c = false /\ is_lparen c = false /\ is_rparen c = false /\
  is_digit c = false /\ is_upper c = false.
Proof. all_chars c. Qed.

Lemma tokenize_after_spaces s : tokenize s = tokenize (snd (span is_space s)).
Proof.
  destruct s as [|c s]; [reflexivity|]. simpl.
  destruct (is_space c) eqn:Ec; [|reflexivity].
  rewrite tokenize_step. unfold match_token.
  destruct (space_class c Ec) as (-> & -> & -> & -> & ->). rewrite Ec.
  destruct (span is_space s) as [run rest]. simpl.
  destruct (tokenize rest); reflexivity.
Qed.

(** X11: white space at the start of a formula changes neither its tokens
    nor its parse. *)
Theorem leading_space_ignored c s :
  is_space c = true ->
  tokenize (String c s) = tokenize s /\
  parse_formula (String c s) = parse_formula s.
Proof.
  intros Hc.
  assert (H : tokenize (String c s) = tokenize s).
  { rewrite (tokenize_after_spaces (String c s)), (tokenize_after_spaces s).
    simpl. rewrite Hc. destruct (span is_space s); reflexivity. }
  split; [exact H|]. unfold parse_formula. rewrite H. reflexivity.
Qed.

Lemma leading_space_ignored_witness :
  tokenize (String " " " H2O") = tokenize " H2O" /\
  parse_formula (String " " " H2O") = parse_formula " H2O".
Proof. exact (leading_space_ignored " " " H2O" eq_refl). Defined.

(** X12: an upper-case letter, a dot or a bracket starts a new token
    whatever stands before it: the tokens of [a ++ b] are those of [a]
    followed by those of [b] when [b] starts with one of them. *)
Theorem tokenize_at_break a b ta tb :
  tokenize a = Ok ta -> tokenize b = Ok tb -> first_sat is_break b = true ->
  tokenize (a ++ b) = Ok (ta ++ tb)%list.
Proof.
  intros Ha Hb Hbreak. rewrite (tokenize_app _ _ _ Ha Hbreak), Hb. reflexivity.
Qed.

Lemma tokenize_at_break_witness :
  tokenize ("Na2" ++ "SO4")
  = Ok ([(Kelem, "Na"); (Knumber, "2")]
          ++ [(Kelem, "S"); (Kelem, "O"); (Knumber, "4")])%list.
Proof. exact (tokenize_at_break "Na2" "SO4" _ _ eq_refl eq_refl eq_refl). Defined.

(* ================================================================= *)
(** ** The order and the text of a formatted formula *)

Lemma key_leb_total x y : key_leb x y = true \/ key_leb y x = true.
Proof.
  unfold key_leb. destruct x as [rx sx], y as [ry sy]. simpl.
  destruct (Z.ltb_spec rx ry); [left; reflexivity|].
  destruct (Z.ltb_spec ry rx); [right; reflexivity|].
  assert (rx = ry) by lia. subst. rewrite Z.eqb_refl. simpl.
  apply String.leb_total.
Qed.

Lemma insert_by_key_sorted x l :
  Sorted key_le l -> Sorted key_le (insert_by_key x l).
Proof.
  induction 1 as [|y l Hl IH Hhd]; simpl.
  - repeat constructor.
  - destruct (key_leb (order_key x) (order_key y)) eqn:E.
    + repeat constructor; assumption.
    + constructor; [exact IH|].
      assert (Hyx : key_le y x).
      { destruct (key_leb_total (order_key x) (order_key y)); [congruence|].
        assumption. }
      destruct Hhd as [|z l' Hyz]; simpl.
      * constructor; exact Hyx.
      * destruct (key_leb (order_key x) (order_key z)); constructor; assumption.
Qed.

Lemma sorted_by_key_sorted l : Sorted key_le (sorted_by_key l).
Proof.
  induction l as [|x l IH]; simpl; [constructor|].
  apply insert_by_key_sorted, IH.
Qed.

Lemma order_key_symbol el n : order_key (el, n) = order_key (el, 0).
Proof. reflexivity. Qed.

(** The item whose key is below all others comes first. *)
Lemma sorted_by_key_head m l :
  In m (keys l) ->
  (forall y, In y (keys l) ->
             key_leb (order_key (m, 0)) (order_key (y, 0)) = true) ->
  (forall y, In y (keys l) ->
             key_leb (order_key (y, 0)) (order_key (m, 0)) = true -> y = m) ->
  exists n rest, sorted_by_key l = (m, n) :: rest.
Proof.
  induction l as [|[el n] l IH]; intros Hin Hle Honly; [contradiction|].
  change (sorted_by_key ((el, n) :: l))
    with (insert_by_key (el, n) (sorted_by_key l)).
  change (keys ((el, n) :: l)) with (el :: keys l) in *.
  assert (Hkeys : forall y, In y (keys (sorted_by_key l)) -> In y (keys l)).
  { intros y Hy. unfold keys in *.
    eapply Permutation_in; [|exact Hy].
    apply Permutation_map, Permutation_sym, sorted_by_key_Permutation. }
  destruct (string_dec el m) as [->|Hne].
  - destruct (sorted_by_key l) as [|[y ny] s] eqn:Es; cbn [insert_by_key];
      [eauto|].
    rewrite (order_key_symbol m n), (order_key_symbol y ny), Hle; [eauto|].
    right. apply Hkeys. left; reflexivity.
  - destruct Hin as [E|Hin]; [congruence|].
    destruct IH as (n' & rest & Hs);
      [exact Hin | intros y Hy; apply Hle; right; exact Hy
       | intros y Hy; apply Honly; right; exact Hy |].
    rewrite Hs. cbn [insert_by_key].
    rewrite (order_key_symbol el n), (order_key_symbol m n').
    destruct (key_leb (order_key (el, 0)) (order_key (m, 0))) eqn:E; [|eauto].
    exfalso. apply Hne. apply Honly; [left; reflexivity | exact E].
Qed.

Lemma carbon_least y : key_leb (order_key ("C", 0)) (order_key (y, 0)) = true.
Proof.
  unfold order_key. destruct (String.eqb_spec y "C") as [->|_]; [reflexivity|].
  destruct (y =? "H")%string; reflexivity.
Qed.

Lemma carbon_only y :
  key_leb (order_key (y, 0)) (order_key ("C", 0)) = true -> y = "C".
Proof.
  unfold order_key. destruct (String.eqb_spec y "C") as [->|_]; [reflexivity|].
  destruct (y =? "H")%string; discriminate.
Qed.

Lemma hydrogen_least y :
  y <> "C" -> key_leb (order_key ("H", 0)) (order_key (y, 0)) = true.
Proof.
  intros Hy. unfold order_key.
  destruct (String.eqb_spec y "C") as [E|_]; [contradiction|].
  destruct (String.eqb_spec y "H") as [->|_]; reflexivity.
Qed.

Lemma hydrogen_only y :
  y <> "C" ->
  key_leb (order_key (y, 0)) (order_key ("H", 0)) = true -> y = "H".
Proof.
  intros Hy. unfold order_key.
  destruct (String.eqb_spec y "C") as [E|_]; [contradiction|].
  destruct (String.eqb_spec y "H") as [->|_]; [reflexivity|discriminate].
Qed.

(** X13: [format_formula] writes the items of a dictionary, each once, in
    the order of [order_key]; carbon comes first when present, and
    hydrogen comes first when present without carbon.  It raises exactly
    when some count has more than [max_str_digits] digits. *)
Theorem format_formula_order counts :
  Permutation counts (sorted_by_key counts) /\
  Sorted key_le (sorted_by_key counts) /\
  format_formula counts
  = (if all_fit counts
     then Ok (String.concat "" (map part_text (sorted_by_key counts)))
     else Raise IntTooLongForText) /\
  (In "C" (keys counts) ->
   exists n rest,
     sorted_by_key counts = ("C", n) :: rest /\
     forall text,
       format_formula counts = Ok text ->
       text = part_text ("C", n) ++ String.concat "" (map part_text rest)) /\
  (~ In "C" (keys counts) -> In "H" (keys counts) ->
   exists n rest,
     sorted_by_key counts = ("H", n) :: rest /\
     forall text,
       format_formula counts = Ok text ->
       text = part_text ("H", n) ++ String.concat "" (map part_text rest)).
Proof.
  assert (Htext : forall item rest text,
            sorted_by_key counts = item :: rest ->
            format_formula counts = Ok text ->
            text = part_text item ++ String.concat "" (map part_text rest)).
  { intros item rest text Hs H. rewrite format_formula_cases in H.
    destruct (all_fit counts); [|discriminate].
    inversion H; subst text. rewrite Hs. cbn [map]. apply concat_cons. }
  split; [apply sorted_by_key_Permutation|].
  split; [apply sorted_by_key_sorted|].
  split; [apply format_formula_cases|].
  split.
  - intros HC.
    destruct (sorted_by_key_head "C" counts HC) as (n & rest & Hs).
    + intros y _. apply carbon_least.
    + intros y _. apply carbon_only.
    + exists n, rest. split; [exact Hs|]. intros text. apply Htext, Hs.
  - intros HnC HH.
    destruct (sorted_by_key_head "H" counts HH) as (n & rest & Hs).
    + intros y Hy. apply hydrogen_least. intros ->. contradiction.
    + intros y Hy. apply hydrogen_only. intros ->. contradiction.
    + exists n, rest. split; [exact Hs|]. intros text. apply Htext, Hs.
Qed.

Lemma format_formula_order_witness :
  exists n rest,
    sorted_by_key [("O", 6); ("H", 12); ("C", 6)] = ("C", n) :: rest /\
    forall text,
      format_formula [("O", 6); ("H", 12); ("C", 6)] = Ok text ->
      text = part_text ("C", n) ++ String.concat "" (map part_text rest).
Proof.
  destruct (format_formula_order [("O", 6); ("H", 12); ("C", 6)])
    as (_ & _ & _ & HC & _).
  apply HC. simpl. auto.
Defined.

(** X14: on dictionaries whose keys are distinct element symbols and
    whose counts are at least zero, a text that [format_formula] returns
    is accepted by [parse_formula], and two such dictionaries for which it
    returns the same text are equal. *)
Theorem format_formula_injective a b text :
  counts_ok (fun n => 0 <= n) a -> counts_ok (fun n => 0 <= n) b ->
  format_formula a = Ok text -> format_formula b = Ok text ->
  parse_formula text = Ok (sorted_by_key a) /\
  dict_equiv a b.
Proof.
  intros Ha Hb Hta Htb. pose proof (parse_format a text Ha Hta) as Pa.
  split; [exact Pa|].
  pose proof (parse_format b text Hb Htb) as Pb. rewrite Pa in Pb.
  inversion Pb as [Hs].
  intros k.
  rewrite (dict_equiv_Permutation a _ (proj1 Ha) (sorted_by_key_Permutation a) k).
  rewrite (dict_equiv_Permutation b _ (proj1 Hb) (sorted_by_key_Permutation b) k).
  rewrite Hs. reflexivity.
Qed.

Lemma format_formula_injective_witness :
  parse_formula "H2O" = Ok (sorted_by_key [("O", 1); ("H", 2)]) /\
  dict_equiv [("O", 1); ("H", 2)] [("H", 2); ("O", 1)].
Proof.
  apply format_formula_injective; try reflexivity;
    (split; [unfold distinct_keys; simpl; repeat constructor; simpl;
             intuition discriminate
            | repeat constructor; simpl; lia]).
Defined.

(* ================================================================= *)
(** ** Errors and results of the stoichiometry engine *)

Local Open Scope float_scope.

Lemma get_atomic_weight_known table symbol :
  known table symbol -> exists w, get_atomic_weight (Some table) symbol = Ok w.
Proof.
  intros Hk. unfold get_atomic_weight.
  destruct (String.eqb_spec symbol "D") as [E|Hne]; [eauto|].
  destruct Hk as [E|Hsome]; [contradiction|].
  destruct (table symbol); [eauto|contradiction].
Qed.

Lemma get_atomic_weight_unknown table symbol :
  ~ known table symbol ->
  get_atomic_weight (Some table) symbol
  = Raise (FormulaParseError (UnknownSymbol symbol)).
Proof.
  intros Hk. unfold get_atomic_weight, known in *.
  destruct (String.eqb_spec symbol "D") as [E|Hne]; [exfalso; auto|].
  destruct (table symbol); [exfalso; apply Hk; right; discriminate|reflexivity].
Qed.

Lemma weighted_sum_unknown table before el n after : forall acc,
  Forall (weighable table) before -> ~ known table el ->
  weighted_sum (Some table) (before ++ (el, n) :: after)%list acc
  = Raise (FormulaParseError (UnknownSymbol el)).
Proof.
  intros acc Hb Hel. revert acc.
  induction Hb as [|[x m] before [Hk [f Hf]] _ IH]; intros acc;
    cbn [app weighted_sum].
  - rewrite (get_atomic_weight_unknown _ _ Hel). reflexivity.
  - simpl in Hk, Hf. destruct (get_atomic_weight_known _ _ Hk) as [w Hw].
    rewrite Hw, Hf. cbn [bind]. apply IH.
Qed.

(** X15: when an element of the formula has no weight, [molar_mass],
    [percent_composition] and [molecular_formula] all fail with the
    unknown-symbol error that names the first such element in the order
    in which the elements first occur. *)
Theorem unknown_symbol_named table s target before el n after :
  parse_formula s = Ok (before ++ (el, n) :: after)%list ->
  Forall (weighable table) before -> ~ known table el ->
  molar_mass (Some table) s = Raise (FormulaParseError (UnknownSymbol el)) /\
  percent_composition (Some table) s
  = Raise (FormulaParseError (UnknownSymbol el)) /\
  molecular_formula (Some table) s target
  = Raise (FormulaParseError (UnknownSymbol el)) /\
  spec_kind (FormulaParseError (UnknownSymbol el)) = Some UnknownElement.
Proof.
  intros Hp Hb Hel.
  pose proof (weighted_sum_unknown table before el n after 0 Hb Hel) as Hw.
  assert (Hm : molar_mass (Some table) s
               = Raise (FormulaParseError (UnknownSymbol el))).
  { unfold molar_mass. rewrite Hp. exact Hw. }
  split; [exact Hm|]. split; [|split; [|reflexivity]].
  - unfold percent_composition. rewrite Hp, Hm. reflexivity.
  - unfold molecular_formula. rewrite Hp. cbn [bind]. rewrite Hw. reflexivity.
Qed.

Lemma unknown_symbol_named_witness :
  molar_mass (Some example_table) "H2XxO"
  = Raise (FormulaParseError (UnknownSymbol "Xx")) /\
  percent_composition (Some example_table) "H2XxO"
  = Raise (FormulaParseError (UnknownSymbol "Xx")) /\
  molecular_formula (Some example_table) "H2XxO" 18.0
  = Raise (FormulaParseError (UnknownSymbol "Xx")) /\
  spec_kind (FormulaParseError (UnknownSymbol "Xx")) = Some UnknownElement.
Proof.
  apply (unknown_symbol_named example_table "H2XxO" 18.0
           [("H"%string, 2%Z)] "Xx"%string 1%Z [("O"%string, 1%Z)]).
  - reflexivity.
  - apply Forall_cons; [|apply Forall_nil].
    split; [right; discriminate | eexists; reflexivity].
  - intros [E|E]; [discriminate E | apply E; reflexivity].
Defined.

(** X16: without the [periodictable] package an error of the parser still
    comes first; otherwise every formula with an element, and every list
    of pairs with a pair, fails with the error of the missing package,
    and only the empty ones get past it. *)
Theorem without_periodictable s target pairs tolerance :
  molar_mass None s
  = match parse_formula s with
    | Raise e => Raise e
    | Ok [] => Ok 0
    | Ok (_ :: _) => Raise MissingPeriodictable
    end /\
  percent_composition None s
  = match parse_formula s with
    | Raise e => Raise e
    | Ok [] => Ok ([], 0)
    | Ok (_ :: _) => Raise MissingPeriodictable
    end /\
  molecular_formula None s target
  = match parse_formula s with
    | Raise e => Raise e
    | Ok [] => Raise ZeroDivisionError
    | Ok (_ :: _) => Raise MissingPeriodictable
    end /\
  empirical_formula_from_pairs None pairs tolerance
  = match pairs with
    | [] => Raise MinOfEmptySequence
    | _ :: _ => Raise MissingPeriodictable
    end.
Proof.
  unfold molar_mass, percent_composition, molecular_formula, molar_mass.
  destruct (parse_formula s) as [[|[el n] counts]|e]; cbn [bind];
    (split; [reflexivity|]; split; [reflexivity|]; split; [reflexivity|]);
    destruct pairs as [|[sym val] pairs]; reflexivity.
Qed.

Lemma percent_items_result pt total counts : forall comp,
  percent_items pt counts total = Ok comp ->
  keys comp = keys counts /\
  (counts <> [] -> (total =? 0) = false) /\
  Forall2 (fun item pct =>
             exists w nf,
               get_atomic_weight pt (fst item) = Ok w /\
               float_of_int (snd item) = Ok nf /\
               snd pct = 100.0 * w * nf / total) counts comp.
Proof.
  induction counts as [|[el n] counts IH]; intros comp H; cbn [percent_items] in H.
  - inversion H; subst. split; [reflexivity|]. split; [congruence|constructor].
  - destruct (get_atomic_weight pt el) as [w|e] eqn:Ew; [|discriminate].
    cbn [bind] in H. destruct (float_of_int n) as [nf|e] eqn:En; [|discriminate].
    cbn [bind] in H. unfold truediv in H.
    destruct (total =? 0) eqn:Ez; [discriminate|]. cbn [bind] in H.
    destruct (percent_items pt counts total) as [rest|e] eqn:Er; [|discriminate].
    inversion H; subst. destruct (IH _ eq_refl) as (Hk & _ & Hall).
    split; [simpl; rewrite Hk; reflexivity|]. split; [reflexivity|].
    constructor; [|exact Hall]. exists w, nf. auto.
Qed.

(** X17: when [percent_composition] returns, the total is the molar mass
    of the formula, it is not zero unless the formula has no element, and
    the mapping has the elements of the formula in their order, each with
    [100 * weight * count / total]. *)
Theorem percent_composition_result pt s comp total :
  percent_composition pt s = Ok (comp, total) ->
  exists counts,
    parse_formula s = Ok counts /\
    molar_mass pt s = Ok total /\
    keys comp = keys counts /\
    (counts <> [] -> (total =? 0) = false) /\
    Forall2 (fun item pct =>
               exists w nf,
                 get_atomic_weight pt (fst item) = Ok w /\
                 float_of_int (snd item) = Ok nf /\
                 snd pct = 100.0 * w * nf / total) counts comp.
Proof.
  unfold percent_composition.
  destruct (parse_formula s) as [counts|e] eqn:Ep; [|discriminate].
  cbn [bind]. destruct (molar_mass pt s) as [mm|e] eqn:Em; [|discriminate].
  cbn [bind]. destruct (percent_items pt counts mm) as [items|e] eqn:Ei;
    [|discriminate].
  cbn [bind]. intros H; inversion H; subst.
  exists counts. split; [reflexivity|]. split; [reflexivity|].
  apply (percent_items_result _ _ _ _ Ei).
Qed.

Lemma percent_composition_result_witness :
  exists counts,
    parse_formula "H2O" = Ok counts /\
    molar_mass (Some example_table) "H2O" = Ok (0 + 1.008 * 2 + 15.999 * 1) /\
    keys [("H"%string, 100.0 * 1.008 * 2 / (0 + 1.008 * 2 + 15.999 * 1));
          ("O"%string, 100.0 * 15.999 * 1 / (0 + 1.008 * 2 + 15.999 * 1))]
    = keys counts /\
    (counts <> [] -> (0 + 1.008 * 2 + 15.999 * 1 =? 0) = false) /\
    Forall2 (fun item pct =>
               exists w nf,
                 get_atomic_weight (Some example_table) (fst item) = Ok w /\
                 float_of_int (snd item) = Ok nf /\
                 snd pct = 100.0 * w * nf / (0 + 1.008 * 2 + 15.999 * 1))
      counts
      [("H"%string, 100.0 * 1.008 * 2 / (0 + 1.008 * 2 + 15.999 * 1));
       ("O"%string, 100.0 * 15.999 * 1 / (0 + 1.008 * 2 + 15.999 * 1))].
Proof.
  exact (percent_composition_result (Some example_table) "H2O" _ _ eq_refl).
Defined.

Lemma fallback_counts_least ratios : forall counts result,
  fallback_counts ratios counts = Ok result ->
  distinct_keys counts -> Forall (fun item => (1 <= snd item)%Z) counts ->
  distinct_keys result /\
  Forall (fun item => (1 <= snd item)%Z) result /\
  forall el, In el (keys result) <-> In el (keys counts) \/ In el (map fst ratios).
Proof.
  induction ratios as [|[sym r] ratios IH]; intros counts result H Hd Hall;
    cbn [fallback_counts] in H.
  - inversion H; subst. split; [exact Hd|]. split; [exact Hall|].
    intros el; simpl; tauto.
  - destruct (py_round r) as [n|e]; [|discriminate]. cbn [bind] in H.
    destruct (IH _ _ H) as (Hd' & Hall' & Hkeys).
    + apply dict_set_distinct, Hd.
    + apply dict_set_Forall; [exact Hall|]. simpl. lia.
    + split; [exact Hd'|]. split; [exact Hall'|].
      intros el. rewrite Hkeys, keys_dict_set. simpl.
      destruct (in_dec string_dec sym (keys counts)) as [Hin|Hnin].
      * split; [tauto|]. intros [Hc|[E|Hr]]; subst; auto.
      * rewrite in_app_iff. simpl. tauto.
Qed.

(** X18: the fall-back of [empirical_formula_from_pairs] never gives a
    count below 1: each symbol of the pairs gets one key, and no other
    key is made. *)
Theorem fallback_counts_at_least_one ratios result el :
  fallback_counts ratios [] = Ok result ->
  distinct_keys result /\
  Forall (fun item => (1 <= snd item)%Z) result /\
  (In el (keys result) <-> In el (map fst ratios)).
Proof.
  intros H.
  destruct (fallback_counts_least _ _ _ H distinct_nil (Forall_nil _))
    as (Hd & Hall & Hkeys).
  split; [exact Hd|]. split; [exact Hall|]. rewrite Hkeys. simpl. tauto.
Qed.

Lemma fallback_counts_at_least_one_witness :
  distinct_keys [("C"%string, 1%Z); ("H"%string, 2%Z)] /\
  Forall (fun item => (1 <= snd item)%Z) [("C"%string, 1%Z); ("H"%string, 2%Z)] /\
  (In "H"%string (keys [("C"%string, 1%Z); ("H"%string, 2%Z)])
   <-> In "H"%string (map fst [("C"%string, 0); ("H"%string, 0.2);
                               ("H"%string, 2.4)])).
Proof.
  exact (fallback_counts_at_least_one
           [("C"%string, 0); ("H"%string, 0.2); ("H"%string, 2.4)] _ "H"%string
           eq_refl).
Defined.

Lemma probe_accepts k tolerance ratios : forall rounded out,
  probe k tolerance ratios rounded = Ok (Some out) ->
  exists new, out = (rounded ++ new)%list /\
              Forall2 (accepted_at k tolerance) ratios new.
Proof.
  induction ratios as [|[sym r] ratios IH]; intros rounded out H;
    cbn [probe] in H.
  - inversion H; subst. exists []. rewrite app_nil_r. split; [reflexivity|constructor].
  - destruct (float_of_int k) as [kf|e] eqn:Ek; [|discriminate].
    cbn [bind] in H.
    destruct (py_round (r * kf)) as [n|e] eqn:En; [|discriminate].
    cbn [bind] in H.
    destruct (Z.eqb_spec n 0) as [E0|E0]; [discriminate|].
    destruct (float_of_int n) as [nf|e] eqn:Enf; [|discriminate].
    cbn [bind] in H.
    destruct (tolerance <? abs (r * kf - nf)) eqn:Et; [discriminate|].
    destruct (IH _ _ H) as [new [Hout Hall]].
    exists ((sym, n) :: new). split.
    + rewrite Hout, <- app_assoc. reflexivity.
    + constructor; [|exact Hall].
      split; [reflexivity|]. split; [exact E0|]. exists kf, nf. auto.
Qed.

Lemma accepted_keys k tolerance ratios new :
  Forall2 (accepted_at k tolerance) ratios new -> map fst new = map fst ratios.
Proof.
  induction 1 as [|r item ratios new [Hf _] _ IH]; [reflexivity|].
  simpl. rewrite Hf, IH. reflexivity.
Qed.

(** X19: the first scale of the list that is accepted decides the
    result.  When every scale before [k] is rejected and [k] is accepted,
    [empirical_formula_from_pairs] returns what [format_formula] gives for
    the counts recorded at [k]: every pair has its rounded product recorded
    in order, none of them zero and each within the tolerance, and the
    counts are these products, those of a symbol given more than once
    added up. *)
Theorem probe_accepted pt pairs tolerance moles minmol ratios earlier k later
  rounded el :
  spec_moles pt pairs = Ok moles ->
  py_min (filter (fun v => 0 <? v) (map snd moles)) = Ok minmol ->
  ratios_of moles minmol = Ok ratios ->
  probe_scales = (earlier ++ k :: later)%list ->
  (forall j, In j earlier -> probe j tolerance ratios [] = Ok None) ->
  probe k tolerance ratios [] = Ok (Some rounded) ->
  empirical_formula_from_pairs pt pairs tolerance
  = format_formula (accumulate rounded) /\
  Forall2 (accepted_at k tolerance) ratios rounded /\
  map fst rounded = map fst pairs /\
  count_of (accumulate rounded) el = total_of rounded el.
Proof.
  intros Hmoles Hmin Hratios Hscales Hearlier H.
  split.
  { unfold empirical_formula_from_pairs, empirical_formula_with.
    rewrite moles_of_spec, Hmoles. cbn [bind]. rewrite Hmin. cbn [bind].
    rewrite Hratios. cbn [bind]. rewrite Hscales.
    apply probe_all_first; assumption. }
  destruct (probe_accepts _ _ _ _ _ H) as [new [-> Hall]].
  cbn [app]. split; [exact Hall|]. split.
  - rewrite (accepted_keys _ _ _ _ Hall), (ratios_of_keys _ _ _ Hratios).
    apply (spec_moles_keys _ _ _ Hmoles).
  - change (accumulate new) with (merge_counts [] new).
    rewrite count_of_merge_total. reflexivity.
Qed.

Lemma probe_accepted_witness :
  empirical_formula_from_pairs (Some example_table)
    [("N"%string, 25.94); ("O"%string, 74.06)] default_tolerance
  = format_formula (accumulate [("N"%string, 2%Z); ("O"%string, 5%Z)]) /\
  map fst [("N"%string, 2%Z); ("O"%string, 5%Z)]
  = map fst [("N"%string, 25.94); ("O"%string, 74.06)] /\
  count_of (accumulate [("N"%string, 2%Z); ("O"%string, 5%Z)]) "O"%string
  = total_of [("N"%string, 2%Z); ("O"%string, 5%Z)] "O"%string.
Proof.
  edestruct (probe_accepted (Some example_table)
               [("N"%string, 25.94); ("O"%string, 74.06)] default_tolerance
               [("N"%string, 25.94 / 14.007); ("O"%string, 74.06 / 15.999)]
               (25.94 / 14.007)
               [("N"%string, 25.94 / 14.007 / (25.94 / 14.007));
                ("O"%string, 74.06 / 15.999 / (25.94 / 14.007))]
               [1%Z] 2%Z [3; 4; 5; 6; 8; 10]%Z
               [("N"%string, 2%Z); ("O"%string, 5%Z)] "O"%string)
    as (H1 & _ & H3 & H4).
  - reflexivity.
  - reflexivity.
  - reflexivity.
  - reflexivity.
  - intros j [<-|[]]. reflexivity.
  - reflexivity.
  - split; [exact H1|]. split; [exact H3 | exact H4].
Defined.

(** X20: whatever [molecular_formula] returns is what [format_formula]
    gives for the counts of a formula with at least one element, each
    multiplied by one whole number that is at least 1. *)
Theorem molecular_formula_multiple pt s target out :
  molecular_formula pt s target = Ok out ->
  exists counts k,
    parse_formula s = Ok counts /\ counts <> [] /\ (1 <= k)%Z /\
    format_formula (multiply_counts counts k) = Ok out /\
    forall el, count_of (multiply_counts counts k) el = (count_of counts el * k)%Z.
Proof.
  unfold molecular_formula.
  destruct (parse_formula s) as [counts|e]; [|discriminate]. cbn [bind].
  destruct (weighted_sum pt counts 0) as [mm|e] eqn:Em; [|discriminate].
  cbn [bind]. destruct (truediv target mm) as [ratio|e] eqn:Er; [|discriminate].
  cbn [bind]. destruct (py_round ratio) as [k|e]; [|discriminate].
  cbn [bind]. destruct (Z.leb_spec k 0) as [Hk|Hk]; [discriminate|].
  destruct (float_of_int k) as [kf|e]; [|discriminate]. cbn [bind].
  destruct (0.03 <? abs (ratio - kf)); [discriminate|].
  intros H. exists counts, k.
  split; [reflexivity|]. split.
  - intros ->. simpl in Em. inversion Em; subst. discriminate Er.
  - split; [lia|]. split; [exact H|]. intros el. apply count_of_multiply.
Qed.

Lemma molecular_formula_multiple_witness :
  exists counts k,
    parse_formula "CH2O" = Ok counts /\ counts <> [] /\ (1 <= k)%Z /\
    format_formula (multiply_counts counts k) = Ok "C6H12O6"%string /\
    forall el, count_of (multiply_counts counts k) el = (count_of counts el * k)%Z.
Proof.
  exact (molecular_formula_multiple (Some example_table) "CH2O" 180.16 _ eq_refl).
Defined.

Lemma probe_all_keys tolerance ratios ks : forall out,
  probe_all ks tolerance ratios = Ok out ->
  exists counts,
    format_formula counts = Ok out /\ distinct_keys counts /\
    forall el, In el (keys counts) <-> In el (map fst ratios).
Proof.
  induction ks as [|k ks IH]; intros out H; cbn [probe_all] in H.
  - destruct (fallback_counts ratios []) as [counts|e] eqn:E; [|discriminate].
    cbn [bind] in H. exists counts. split; [exact H|].
    destruct (fallback_counts_least _ _ _ E distinct_nil (Forall_nil _))
      as (Hd & _ & Hkeys).
    split; [exact Hd|]. intros el. rewrite Hkeys. simpl. tauto.
  - destruct (probe k tolerance ratios []) as [[rounded|]|e] eqn:E;
      try discriminate; cbn [bind] in H.
    + exists (accumulate rounded). split; [exact H|].
      change (accumulate rounded) with (merge_counts [] rounded).
      split; [apply merge_counts_distinct, distinct_nil|].
      intros el. rewrite keys_merge.
      destruct (probe_accepts _ _ _ _ _ E) as [new [-> Hall]]. cbn [app].
      unfold keys. rewrite (accepted_keys _ _ _ _ Hall). simpl. tauto.
    + apply IH, H.
Qed.

(** X21: the formula that [empirical_formula_from_pairs] returns is what
    [format_formula] gives for counts with one key for every symbol of the
    pairs and no other key, whichever scale is accepted or the fall-back
    taken. *)
Theorem empirical_formula_symbols pt pairs tolerance out :
  empirical_formula_from_pairs pt pairs tolerance = Ok out ->
  exists counts,
    format_formula counts = Ok out /\ distinct_keys counts /\
    forall el, In el (keys counts) <-> In el (map fst pairs).
Proof.
  unfold empirical_formula_from_pairs, empirical_formula_with.
  rewrite moles_of_spec.
  destruct (spec_moles pt pairs) as [moles|e] eqn:Em; [|discriminate].
  cbn [bind].
  destruct (py_min (filter (fun v => 0 <? v) (map snd moles))) as [minmol|e];
    [|discriminate].
  cbn [bind].
  destruct (ratios_of moles minmol) as [ratios|e] eqn:Er; [|discriminate].
  cbn [bind]. intros H.
  destruct (probe_all_keys _ _ _ _ H) as (counts & Hout & Hd & Hkeys).
  exists counts. split; [exact Hout|]. split; [exact Hd|].
  intros el. rewrite Hkeys, (ratios_of_keys _ _ _ Er), (spec_moles_keys _ _ _ Em).
  reflexivity.
Qed.

Lemma empirical_formula_symbols_witness :
  exists counts,
    format_formula counts = Ok "CH2O"%string /\ distinct_keys counts /\
    forall el, In el (keys counts)
               <-> In el (map fst [("C"%string, 40.00); ("H"%string, 6.71);
                                   ("O"%string, 53.29)]).
Proof.
  exact (empirical_formula_symbols (Some example_table)
           [("C"%string, 40.00); ("H"%string, 6.71); ("O"%string, 53.29)]
           default_tolerance _ eq_refl).
Defined.

Local Close Scope float_scope.

(* ================================================================= *)
(** ** Kinds of brackets and dots *)

Lemma plain_class c :
  is_dot (plain c) = is_dot c /\ is_lparen (plain c) = is_lparen c /\
  is_rparen (plain c) = is_rparen c /\ is_digit (plain c) = is_digit c /\
  is_upper (plain c) = is_upper c /\ is_lower (plain c) = is_lower c /\
  is_space (plain c) = is_space c.
Proof. destruct c as [[] [] [] [] [] [] [] []]; vm_compute; auto 10. Qed.

Lemma plain_letter c :
  is_digit c || is_upper c || is_lower c = true -> plain c = c.
Proof. all_chars c. Qed.

Lemma span_plain p s :
  (forall c, p (plain c) = p c) ->
  span p (plain_text s)
  = (plain_text (fst (span p s)), plain_text (snd (span p s))).
Proof.
  intros Hp. induction s as [|c s IH]; simpl; [reflexivity|].
  rewrite Hp. destruct (p c); [|reflexivity].
  rewrite IH. destruct (span p s); reflexivity.
Qed.

Lemma match_token_plain s :
  match_token (plain_text s)
  = match match_token s with
    | Some (k, val, rest) => Some (k, plain_text val, plain_text rest)
    | None => None
    end.
Proof.
  destruct s as [|c s]; [reflexivity|]. cbn [plain_text match_token].
  destruct (plain_class c) as (-> & -> & -> & -> & -> & _ & ->).
  destruct (is_dot c); [reflexivity|].
  destruct (is_lparen c); [reflexivity|].
  destruct (is_rparen c); [reflexivity|].
  destruct (is_digit c).
  { rewrite span_plain by (intros d; apply plain_class).
    destruct (span is_digit s); reflexivity. }
  destruct (is_upper c).
  { destruct s as [|d s]; [reflexivity|]. cbn [plain_text].
    destruct (plain_class d) as (_ & _ & _ & _ & _ & -> & _).
    destruct (is_lower d); reflexivity. }
  destruct (is_space c); [|reflexivity].
  rewrite span_plain by (intros d; apply plain_class).
  destruct (span is_space s); reflexivity.
Qed.

Lemma plain_text_digits val :
  forallb is_digit (list_ascii_of_string val) = true -> plain_text val = val.
Proof.
  induction val as [|c val IH]; simpl; [reflexivity|].
  intros H. apply andb_prop in H. destruct H as [Hc Hv].
  rewrite (plain_letter c), (IH Hv); [reflexivity|]. rewrite Hc. reflexivity.
Qed.

Lemma norm_token_plain k val :
  k = Kspace \/ token_ok (k, val) ->
  norm_token (k, plain_text val) = norm_token (k, val).
Proof.
  intros [->|H]; [reflexivity|]. destruct k; try reflexivity; simpl in H |- *.
  - rewrite plain_text_digits; [reflexivity|].
    destruct val; [discriminate|exact H].
  - destruct val as [|c [|d [|x val]]]; try discriminate; simpl in H |- *.
    + rewrite (plain_letter c); [reflexivity|]. rewrite H.
      destruct (is_digit c); reflexivity.
    + apply andb_prop in H. destruct H as [Hc Hd].
      rewrite (plain_letter c), (plain_letter d); [reflexivity| |].
      * rewrite Hd. destruct (is_digit d), (is_upper d); reflexivity.
      * rewrite Hc. destruct (is_digit c); reflexivity.
Qed.

Lemma take_plain n : forall s, take n (plain_text s) = plain_text (take n s).
Proof.
  induction n as [|n IH]; intros [|c s]; simpl; try reflexivity.
  rewrite IH. reflexivity.
Qed.

Lemma tokenize_plain_len n : forall s,
  (String.length s <= n)%nat ->
  match tokenize s with
  | Ok tokens =>
      exists tokens', tokenize (plain_text s) = Ok tokens' /\
                      map norm_token tokens' = map norm_token tokens
  | Raise (FormulaParseError (UnrecognizedNear x)) =>
      tokenize (plain_text s)
      = Raise (FormulaParseError (UnrecognizedNear (plain_text x)))
  | Raise e => tokenize (plain_text s) = Raise e
  end.
Proof.
  induction n as [|n IH]; intros s Hn;
    (destruct s as [|c s];
     [rewrite tokenize_step; exists []; split; reflexivity|]);
    simpl in Hn; [lia|].
  rewrite (tokenize_step (String c s)), (tokenize_step (plain_text (String c s))).
  rewrite match_token_plain. cbn [plain_text].
  destruct (match_token (String c s)) as [[[k val] rest]|] eqn:E.
  - pose proof (match_token_shorter _ _ _ _ E) as Hlen. simpl in Hlen.
    pose proof (norm_token_plain _ _ (match_token_ok _ _ _ _ E)) as Hnorm.
    specialize (IH rest). destruct (tokenize rest) as [toks|e].
    + destruct IH as [toks' [Ht Hmap]]; [lia|]. rewrite Ht. cbn [bind].
      eexists; split; [reflexivity|].
      destruct (kind_eqb k Kspace); [exact Hmap|].
      cbn [map]. rewrite Hnorm, Hmap. reflexivity.
    + cbn [bind].
      destruct e as [[]| | | | | | | | |];
        (rewrite IH by lia); reflexivity.
  - change (String (plain c) (plain_text s)) with (plain_text (String c s)).
    rewrite take_plain. reflexivity.
Qed.

Lemma optional_number_norm toks :
  optional_number (map norm_token toks)
  = '(mult, after) <- optional_number toks ;; Ok (mult, map norm_token after).
Proof.
  destruct toks as [|[[] v] toks]; try reflexivity.
  cbn [map norm_token optional_number]. destruct (py_int v); reflexivity.
Qed.

(** The parser reads the text of elements and numbers only. *)
Lemma parse_unit_loop_norm f : forall counts toks,
  parse_unit_loop f counts (map norm_token toks)
  = match parse_unit_loop f counts toks with
    | Some (Ok (r, rest)) => Some (Ok (r, map norm_token rest))
    | other => other
    end.
Proof.
  induction f as [|f IH]; intros counts toks; [reflexivity|].
  destruct toks as [|[k val] toks]; [reflexivity|].
  destruct k; cbn [map norm_token parse_unit_loop].
  - rewrite IH. destruct (parse_unit_loop f [] toks) as [[[r a]|e]|]; reflexivity.
  - rewrite IH. destruct (parse_unit_loop f [] toks) as [[[r a]|e]|];
      try reflexivity.
    destruct a as [|[[] v] closed]; try reflexivity.
    cbn [map norm_token]. rewrite optional_number_norm.
    destruct (optional_number closed) as [[mult after]|e]; cbn [bind];
      [apply IH | reflexivity].
  - reflexivity.
  - destruct (py_int val) as [num|e]; [|reflexivity].
    destruct toks as [|[[] v] rest1]; try reflexivity; cbn [map norm_token].
    + rewrite IH. destruct (parse_unit_loop f [] rest1) as [[[r a]|e]|];
        try reflexivity.
      destruct a as [|[[] v'] closed]; try reflexivity.
      cbn [map norm_token]. rewrite optional_number_norm.
      destruct (optional_number closed) as [[cnt after]|e]; cbn [bind];
        [apply IH | reflexivity].
    + rewrite optional_number_norm.
      destruct (optional_number rest1) as [[cnt after]|e]; cbn [bind];
        [apply IH | reflexivity].
  - rewrite optional_number_norm.
    destruct (optional_number toks) as [[mult after]|e]; cbn [bind];
      [apply IH | reflexivity].
  - apply IH.
Qed.

Lemma parse_tokens_norm tokens :
  parse_tokens (map norm_token tokens) = parse_tokens tokens.
Proof.
  unfold parse_tokens. rewrite length_map, parse_unit_loop_norm.
  destruct (parse_unit_loop (S (List.length tokens)) [] tokens)
    as [[[r rest]|e]|]; try reflexivity.
  destruct rest as [|[[] v] rest]; reflexivity.
Qed.

(** X22: the kind of bracket and the kind of dot make no difference.
    Writing every opening bracket as [(], every closing one as [)] and
    every dot as [.] leaves the result of [parse_formula] as it is; of an
    error only the quoted excerpt is rewritten in the same way. *)
Theorem bracket_kinds_alike s :
  parse_formula (plain_text s)
  = match parse_formula s with
    | Raise (FormulaParseError (UnrecognizedNear x)) =>
        Raise (FormulaParseError (UnrecognizedNear (plain_text x)))
    | other => other
    end.
Proof.
  pose proof (tokenize_plain_len (String.length s) s (le_n _)) as H.
  unfold parse_formula. destruct (tokenize s) as [tokens|e].
  - destruct H as [tokens' [Ht Hmap]]. rewrite Ht. cbn [bind].
    rewrite <- (parse_tokens_norm tokens'), Hmap, parse_tokens_norm.
    destruct (parse_tokens tokens) as [counts|e] eqn:E; [reflexivity|].
    destruct e as [[]| | | | | | | | |]; try reflexivity.
    exfalso.
    destruct (parse_unit_loop_total (S (List.length tokens)) [] tokens)
      as [r Er]; [lia|].
    rewrite (parse_tokens_run _ _ _ Er) in E.
    destruct r as [[total rest]|e'].
    + destruct rest as [|[[] v] rest]; discriminate.
    + inversion E; subst.
      destruct (parse_unit_loop_errors _ _ _ _ Er) as [H|[H|[H|H]]];
        discriminate.
  - destruct e as [[]| | | | | | | | |]; rewrite H; reflexivity.
Qed.
